(** * email-sender: the ticket-processing pipeline of [email-sender.c]

    A shallow embedding of [is_valid_email], [load_env_variables],
    [connect_to_db], [send_email], [process_ticket] and [main].  The
    [tickets] table is a finite map from ticket ids to rows, and the
    function-local [static int auth_failures] is an explicit component of
    the state.

    The outside world is a record [env], one per call of
    [process_ticket]: whether the server executes each of the four
    statements of the call (the claim update, the select, the
    invalid-address update and the completion update), the value of
    [NOW()], whether [curl_easy_init] yields a handle, and the [CURLcode]
    of [curl_easy_perform].  Within a call, and along a [run] of calls, no
    other client writes to the table; [event_loop] lets rows arrive
    between the calls of the loop of [main].

    What a call does that is visible from outside (sleeping, submitting a
    statement, calling [send_email], performing the transfer) is recorded
    in a trace of [event]s; messages written to [stdout] and [stderr] are
    not. *)

From Stdlib Require Import ZArith String Ascii List Bool Lia.
From stdpp Require Import gmap pretty.
Import ListNotations.

Local Open Scope Z_scope.

(** ** POSIX extended regular expressions, as far as [is_valid_email] uses them *)

Module Regex.

Inductive re : Type :=
| Void
| Eps
| Cls (p : ascii -> bool)
| Seq (r s : re)
| Alt (r s : re)
| Star (r : re).

Fixpoint nullable (r : re) : bool :=
  match r with
  | Void => false
  | Eps => true
  | Cls _ => false
  | Seq r s => nullable r && nullable s
  | Alt r s => nullable r || nullable s
  | Star _ => true
  end.

Fixpoint deriv (c : ascii) (r : re) : re :=
  match r with
  | Void => Void
  | Eps => Void
  | Cls p => if p c then Eps else Void
  | Seq r s =>
      if nullable r then Alt (Seq (deriv c r) s) (deriv c s)
      else Seq (deriv c r) s
  | Alt r s => Alt (deriv c r) (deriv c s)
  | Star r => Seq (deriv c r) (Star r)
  end.

(** A pattern anchored with [^] and [$] matches the whole subject. *)
Fixpoint anchored (r : re) (s : list ascii) : bool :=
  match s with
  | [] => nullable r
  | c :: s' => anchored (deriv c r) s'
  end.

(** [r+] *)
Definition plus (r : re) : re := Seq r (Star r).

(** A bracket range [lo-hi] in the C locale. *)
Definition range (lo hi c : ascii) : bool :=
  (N_of_ascii lo <=? N_of_ascii c)%N && (N_of_ascii c <=? N_of_ascii hi)%N.

Definition lit (a c : ascii) : bool := Ascii.eqb a c.

End Regex.

(** ** [is_valid_email] *)

Definition alpha (c : ascii) : bool :=
  Regex.range "a" "z" c || Regex.range "A" "Z" c.

Definition alnum (c : ascii) : bool :=
  alpha c || Regex.range "0" "9" c.

(** [[a-zA-Z0-9._%+-]] *)
Definition local_class (c : ascii) : bool :=
  alnum c || Regex.lit "." c || Regex.lit "_" c || Regex.lit "%" c
  || Regex.lit "+" c || Regex.lit "-" c.

(** [[a-zA-Z0-9.-]] *)
Definition domain_class (c : ascii) : bool :=
  alnum c || Regex.lit "." c || Regex.lit "-" c.

(** [^[a-zA-Z0-9._%+-]+@[a-zA-Z0-9.-]+\.[a-zA-Z]{2,}$] *)
Definition email_pattern : Regex.re :=
  Regex.Seq (Regex.plus (Regex.Cls local_class))
    (Regex.Seq (Regex.Cls (Regex.lit "@"))
       (Regex.Seq (Regex.plus (Regex.Cls domain_class))
          (Regex.Seq (Regex.Cls (Regex.lit "."))
             (Regex.Seq (Regex.Cls alpha)
                (Regex.Seq (Regex.Cls alpha) (Regex.Star (Regex.Cls alpha))))))).

(** [regexec] returns 0 on a match. *)
Definition regexec (r : Regex.re) (s : string) : Z :=
  if Regex.anchored r (list_ascii_of_string s) then 0 else 1.

(** [regcomp] of the constant pattern is taken to succeed, so [reti] is
    the result of [regexec]. *)
Definition is_valid_email (email : string) : Z :=
  let reti := regexec email_pattern email in
  if reti =? 0 then 1 else 0.


(** ** The [tickets] table *)

Inductive Status : Type := received | processing | completed.

Definition Status_eqb (a b : Status) : bool :=
  match a, b with
  | received, received | processing, processing | completed, completed => true
  | _, _ => false
  end.

(** A row of [tickets]; [sent_at] is the nullable timestamp column. *)
Record ticket : Type := Ticket {
  email : string;
  subject : string;
  body : string;
  status : Status;
  sent_at : option Z
}.

Definition with_status (s : Status) (t : ticket) : ticket :=
  {| email := email t; subject := subject t; body := body t;
     status := s; sent_at := sent_at t |}.

Definition with_sent_at (ts : option Z) (t : ticket) : ticket :=
  {| email := email t; subject := subject t; body := body t;
     status := status t; sent_at := ts |}.

(** The column [id] is unique: the table is a finite map from ids to rows. *)
Abbreviation table := (gmap Z ticket).

(** ** The statements the program submits with [PQexec] *)

Inductive stmt : Type :=
| Listen
    (* LISTEN new_ticket *)
| SelectBacklog
    (* SELECT id FROM tickets WHERE status IN ('received', 'processing') *)
| UpdateClaim (id : Z)
    (* UPDATE tickets SET status = 'processing'
       WHERE id = %d AND status = 'received' *)
| SelectClaimed (id : Z)
    (* SELECT email, subject, body FROM tickets
       WHERE id = %d AND status = 'processing' *)
| UpdateRejected (id : Z)
    (* UPDATE tickets SET status = 'processing', sent_at = NOW()
       WHERE id = %d *)
| UpdateCompleted (id : Z).
    (* UPDATE tickets SET sent_at = NOW(), status = 'completed'
       WHERE id = %d *)

Inductive ExecStatusType : Type :=
| PGRES_COMMAND_OK
| PGRES_TUPLES_OK
| PGRES_FATAL_ERROR.

Definition ExecStatusType_eqb (a b : ExecStatusType) : bool :=
  match a, b with
  | PGRES_COMMAND_OK, PGRES_COMMAND_OK
  | PGRES_TUPLES_OK, PGRES_TUPLES_OK
  | PGRES_FATAL_ERROR, PGRES_FATAL_ERROR => true
  | _, _ => false
  end.

Record PGresult : Type := MkResult {
  PQresultStatus : ExecStatusType;
  tuples : list (list string)
}.

Definition PQntuples (res : PGresult) : Z := Z.of_nat (length (tuples res)).

Definition PQgetvalue (res : PGresult) (row col : nat) : string :=
  nth col (nth row (tuples res) []) EmptyString.

(** The effect of an executed statement on the table; [ts] is [NOW()]. *)
Definition exec_table (q : stmt) (ts : Z) (db : table) : table :=
  match q with
  | Listen | SelectBacklog | SelectClaimed _ => db
  | UpdateClaim id =>
      alter (fun t =>
               if Status_eqb (status t) received then with_status processing t
               else t) id db
  | UpdateRejected id =>
      alter (fun t => with_sent_at (Some ts) (with_status processing t)) id db
  | UpdateCompleted id =>
      alter (fun t => with_status completed (with_sent_at (Some ts) t)) id db
  end.

(** The rows an executed statement returns. *)
Definition exec_rows (q : stmt) (db : table) : list (list string) :=
  match q with
  | SelectBacklog =>
      (fun p : Z * ticket => [pretty (fst p)]) <$>
      filter (fun p : Z * ticket =>
                negb (Status_eqb (status (snd p)) completed) = true)
             (map_to_list db)
  | SelectClaimed id =>
      match db !! id with
      | Some t =>
          if Status_eqb (status t) processing
          then [[email t; subject t; body t]] else []
      | None => []
      end
  | _ => []
  end.

(** The number of rows an executed statement affects (what [PQcmdTuples]
    would report; the source never asks for it). *)
Definition rows_affected (q : stmt) (db : table) : Z :=
  match q with
  | UpdateClaim id =>
      match db !! id with
      | Some t => if Status_eqb (status t) received then 1 else 0
      | None => 0
      end
  | UpdateRejected id | UpdateCompleted id =>
      match db !! id with Some _ => 1 | None => 0 end
  | _ => 0
  end.

Definition ok_status (q : stmt) : ExecStatusType :=
  match q with
  | SelectBacklog | SelectClaimed _ => PGRES_TUPLES_OK
  | _ => PGRES_COMMAND_OK
  end.

(** [PQexec]: when the server executes the statement ([srv = true]) the
    result carries the statement's success status and rows and the table
    is updated; otherwise the result is an error and the table is left as
    it was. *)
Definition PQexec (srv : bool) (ts : Z) (q : stmt) (db : table)
  : PGresult * table :=
  if srv then (MkResult (ok_status q) (exec_rows q db), exec_table q ts db)
  else (MkResult PGRES_FATAL_ERROR [], db).

(** ** State, environment and trace *)

(** The persistent table and the [static int auth_failures] of
    [process_ticket]. *)
Record world : Type := World {
  db : table;
  auth_failures : Z
}.

(** [static int auth_failures = 0;] *)
Definition auth_failures_init : Z := 0.

Definition launch (t : table) : world := World t auth_failures_init.

(** What the outside world answers during one call of [process_ticket].
    There is one flag for each [PQexec] of the function.  The source looks
    at the [PQresultStatus] of three of the results; the result of the
    invalid-address update is cleared unread (lines 309-310), but the
    server can refuse that statement like any other. *)
Record env : Type := Env {
  claim_ok : bool;     (* the server executes the claim update *)
  fetch_ok : bool;     (* the server executes the select *)
  reject_ok : bool;    (* the server executes the invalid-address update *)
  complete_ok : bool;  (* the server executes the completion update *)
  now : Z;             (* the value of NOW() *)
  curl_handle : bool;  (* curl_easy_init() returned a handle *)
  perform_res : Z      (* the CURLcode of curl_easy_perform() *)
}.

Inductive event : Type :=
| EvSleep (secs : Z)
| EvExec (q : stmt) (st : ExecStatusType)
| EvPerform (rcpt : string) (res : Z)
| EvSend (to subj text : string) (ret : Z).

Definition CURLE_OK : Z := 0.
Definition MAX_AUTH_FAILURES : Z := 5.

(** ** [send_email] *)

(** Returns the events of the call and the [int] result.  [res] starts as
    [CURLE_OK] and is only assigned inside [if (curl)]. *)
Definition send_email (e : env) (to subj text : string) : list event * Z :=
  let res := CURLE_OK in
  if curl_handle e then
    let res := perform_res e in
    if negb (res =? CURLE_OK) then ([EvPerform to res], 0)
    else ([EvPerform to res], if res =? CURLE_OK then 1 else 0)
  else ([], if res =? CURLE_OK then 1 else 0).

(** ** [process_ticket] *)

(** Lines 260-264: the rate limit on repeated failures. *)
Definition backoff_gate (c : Z) : list event * Z :=
  if c >=? MAX_AUTH_FAILURES then ([EvSleep 900], 0) else ([], c).

Definition process_ticket (e : env) (w : world) (ticket_id : Z)
  : list event * world :=
  let '(ev0, c) := backoff_gate (auth_failures w) in
  (* Update ticket status to 'processing' *)
  let '(res1, db1) := PQexec (claim_ok e) (now e) (UpdateClaim ticket_id) (db w) in
  let ev1 := ev0 ++ [EvExec (UpdateClaim ticket_id) (PQresultStatus res1)] in
  if negb (ExecStatusType_eqb (PQresultStatus res1) PGRES_COMMAND_OK) then
    (ev1, World db1 c)
  else
    (* Retrieve ticket information *)
    let '(res2, db2) :=
      PQexec (fetch_ok e) (now e) (SelectClaimed ticket_id) db1 in
    let ev2 := ev1 ++ [EvExec (SelectClaimed ticket_id) (PQresultStatus res2)] in
    if negb (ExecStatusType_eqb (PQresultStatus res2) PGRES_TUPLES_OK)
       || (PQntuples res2 =? 0) then
      (ev2, World db2 c)
    else
      let email := PQgetvalue res2 0 0 in
      let subject := PQgetvalue res2 0 1 in
      let body := PQgetvalue res2 0 2 in
      (* Validate email format before sending *)
      if is_valid_email email =? 0 then
        let '(res3, db3) :=
          PQexec (reject_ok e) (now e) (UpdateRejected ticket_id) db2 in
        (* the result is cleared without a look at its status *)
        (ev2 ++ [EvExec (UpdateRejected ticket_id) (PQresultStatus res3)],
         World db3 c)
      else
        (* Attempt to send the email *)
        let '(evs, sent) := send_email e email subject body in
        let ev3 := ev2 ++ evs ++ [EvSend email subject body sent] in
        if negb (sent =? 0) then
          let '(res3, db3) :=
            PQexec (complete_ok e) (now e) (UpdateCompleted ticket_id) db2 in
          (* a failed update is only logged *)
          (ev3 ++ [EvExec (UpdateCompleted ticket_id) (PQresultStatus res3)],
           World db3 0)
        else
          (ev3, World db2 (c + 1)).

(** ** Sequences of calls *)

(** [process_ticket] called for each [(ticket_id, env)] in turn, as the
    backlog loop and the notification loop of [main] do. *)
Fixpoint run (w : world) (calls : list (Z * env)) : list event * world :=
  match calls with
  | [] => ([], w)
  | (id, e) :: rest =>
      let '(ev, w1) := process_ticket e w id in
      let '(evs, w2) := run w1 rest in
      (ev ++ evs, w2)
  end.

(** ** Observations on traces and tables *)

Definition is_sleep (ev : event) : bool :=
  match ev with EvSleep _ => true | _ => false end.

Definition is_fetch (ev : event) : bool :=
  match ev with EvExec (SelectClaimed _) _ => true | _ => false end.

Definition is_send (ev : event) : bool :=
  match ev with EvSend _ _ _ _ => true | _ => false end.

Definition is_perform (ev : event) : bool :=
  match ev with EvPerform _ _ => true | _ => false end.

(** A call of [send_email] that returned non-zero. *)
Definition is_send_ok (ev : event) : bool :=
  match ev with EvSend _ _ _ ret => negb (ret =? 0) | _ => false end.

(** A call of [send_email] that returned zero. *)
Definition is_send_failed (ev : event) : bool :=
  match ev with EvSend _ _ _ ret => ret =? 0 | _ => false end.

Definition count (p : event -> bool) (tr : list event) : nat :=
  length (List.filter p tr).

Definition status_of (t : table) (id : Z) : option Status :=
  status <$> t !! id.

Definition sent_at_of (t : table) (id : Z) : option (option Z) :=
  sent_at <$> t !! id.





(** ** Names for the stages of one call *)

(** What the backoff gate emits and the counter it leaves. *)
Definition gate_events (w : world) : list event :=
  fst (backoff_gate (auth_failures w)).

Definition gate_counter (w : world) : Z :=
  snd (backoff_gate (auth_failures w)).

(** The table once the claim update has been executed. *)
Definition claimed (e : env) (w : world) (id : Z) : table :=
  exec_table (UpdateClaim id) (now e) (db w).

(** The trace up to and including a select that was executed. *)
Definition fetched_events (w : world) (id : Z) : list event :=
  gate_events w ++ [EvExec (UpdateClaim id) PGRES_COMMAND_OK;
                    EvExec (SelectClaimed id) PGRES_TUPLES_OK].

(** The environment [e], with a handle and a transfer that succeeds. *)
Definition delivering (e : env) : env :=
  {| claim_ok := claim_ok e; fetch_ok := fetch_ok e;
     reject_ok := reject_ok e; complete_ok := complete_ok e;
     now := now e; curl_handle := true; perform_res := CURLE_OK |}.

(** Every call of [calls] reaches [send_email] and gets zero back. *)
Fixpoint all_sends_failed (w : world) (calls : list (Z * env)) : bool :=
  match calls with
  | [] => true
  | (i, e) :: rest =>
      let '(ev, w1) := process_ticket e w i in
      (count is_send_failed ev =? 1)%nat && all_sends_failed w1 rest
  end.

(** ** The six ways a call can go *)

(** [shape e w id res]: [res] is what one of the six paths through
    [process_ticket] yields under [e] from [w]; [process_ticket_shape]
    below shows that the function always yields one of them. *)
Inductive shape (e : env) (w : world) (id : Z) (res : list event * world)
  : Prop :=
| ClaimError
    (Hclaim : claim_ok e = false)
    (Eres : res =
       (gate_events w ++ [EvExec (UpdateClaim id) PGRES_FATAL_ERROR],
        World (db w) (gate_counter w)))
| FetchError
    (Hclaim : claim_ok e = true) (Hfetch : fetch_ok e = false)
    (Eres : res =
       (gate_events w ++ [EvExec (UpdateClaim id) PGRES_COMMAND_OK;
                          EvExec (SelectClaimed id) PGRES_FATAL_ERROR],
        World (claimed e w id) (gate_counter w)))
| NoRow
    (Hclaim : claim_ok e = true) (Hfetch : fetch_ok e = true)
    (Hrows : exec_rows (SelectClaimed id) (claimed e w id) = [])
    (Eres : res =
       (fetched_events w id, World (claimed e w id) (gate_counter w)))
| Rejected (r : ticket)
    (Hclaim : claim_ok e = true) (Hfetch : fetch_ok e = true)
    (Hrow : claimed e w id !! id = Some r) (Hst : status r = processing)
    (Hvalid : is_valid_email (email r) = 0)
    (Eres : res =
       (fetched_events w id
          ++ [EvExec (UpdateRejected id)
                (PQresultStatus
                   (fst (PQexec (reject_ok e) (now e) (UpdateRejected id)
                           (claimed e w id))))],
        World (snd (PQexec (reject_ok e) (now e) (UpdateRejected id)
                      (claimed e w id)))
              (gate_counter w)))
| Sent (r : ticket)
    (Hclaim : claim_ok e = true) (Hfetch : fetch_ok e = true)
    (Hrow : claimed e w id !! id = Some r) (Hst : status r = processing)
    (Hvalid : is_valid_email (email r) <> 0)
    (Hsent : snd (send_email e (email r) (subject r) (body r)) <> 0)
    (Eres : res =
       (fetched_events w id
          ++ fst (send_email e (email r) (subject r) (body r))
          ++ [EvSend (email r) (subject r) (body r)
                (snd (send_email e (email r) (subject r) (body r)));
              EvExec (UpdateCompleted id)
                (PQresultStatus
                   (fst (PQexec (complete_ok e) (now e) (UpdateCompleted id)
                           (claimed e w id))))],
        World (snd (PQexec (complete_ok e) (now e) (UpdateCompleted id)
                      (claimed e w id)))
              0))
| SendFailed (r : ticket)
    (Hclaim : claim_ok e = true) (Hfetch : fetch_ok e = true)
    (Hrow : claimed e w id !! id = Some r) (Hst : status r = processing)
    (Hvalid : is_valid_email (email r) <> 0)
    (Hsent : snd (send_email e (email r) (subject r) (body r)) = 0)
    (Eres : res =
       (fetched_events w id
          ++ fst (send_email e (email r) (subject r) (body r))
          ++ [EvSend (email r) (subject r) (body r) 0],
        World (claimed e w id) (gate_counter w + 1))).

(** ** Sample rows, tables and environments *)

Definition ticket_42 : ticket := Ticket "a@b.com" "S" "B" received None.
Definition ticket_7 : ticket := Ticket "c@d.org" "S" "B" completed (Some 100).
Definition ticket_9 : ticket := Ticket "not-an-email" "S" "B" received None.
Definition ticket_5 : ticket := Ticket "a@b.com" "S" "B" processing None.

Definition sample_table : table :=
  {[ 42 := ticket_42; 7 := ticket_7; 9 := ticket_9; 5 := ticket_5 ]}.

(** Everything works. *)
Definition env_fine : env :=
  {| claim_ok := true; fetch_ok := true; reject_ok := true;
     complete_ok := true; now := 1000; curl_handle := true;
     perform_res := CURLE_OK |}.

(** The transfer fails with [CURLE_LOGIN_DENIED]. *)
Definition env_send_fails : env :=
  {| claim_ok := true; fetch_ok := true; reject_ok := true;
     complete_ok := true; now := 1000; curl_handle := true;
     perform_res := 67 |}.

(** [curl_easy_init] returns [NULL]. *)
Definition env_no_handle : env :=
  {| claim_ok := true; fetch_ok := true; reject_ok := true;
     complete_ok := true; now := 1000; curl_handle := false;
     perform_res := CURLE_OK |}.

(** The transfer succeeds and the completion update is refused. *)
Definition env_completion_fails : env :=
  {| claim_ok := true; fetch_ok := true; reject_ok := true;
     complete_ok := false; now := 1000; curl_handle := true;
     perform_res := CURLE_OK |}.

(** Everything works but the invalid-address update, which is refused. *)
Definition env_rejection_refused : env :=
  {| claim_ok := true; fetch_ok := true; reject_ok := false;
     complete_ok := true; now := 1000; curl_handle := true;
     perform_res := CURLE_OK |}.

(** Everything works, a thousand seconds later. *)
Definition env_later : env :=
  {| claim_ok := true; fetch_ok := true; reject_ok := true;
     complete_ok := true; now := 2000; curl_handle := true;
     perform_res := CURLE_OK |}.

(** A failed send for ticket 42, a call for ticket 9, then two calls for
    ticket 42 in which everything works. *)
Definition retry_calls : list (Z * env) :=
  [(42, env_send_fails); (9, env_fine); (42, env_fine); (42, env_fine)].


Definition sample_world : world := World sample_table 0.

(** ** What a pattern matches *)

(** The subjects a pattern matches as a whole, independently of how
    [Regex.anchored] computes it. *)
Inductive re_lang : Regex.re -> list ascii -> Prop :=
| LEps : re_lang Regex.Eps []
| LCls (p : ascii -> bool) (c : ascii) :
    p c = true -> re_lang (Regex.Cls p) [c]
| LSeq (r s : Regex.re) (u v : list ascii) :
    re_lang r u -> re_lang s v -> re_lang (Regex.Seq r s) (u ++ v)
| LAltL (r s : Regex.re) (u : list ascii) :
    re_lang r u -> re_lang (Regex.Alt r s) u
| LAltR (r s : Regex.re) (u : list ascii) :
    re_lang s u -> re_lang (Regex.Alt r s) u
| LStarNil (r : Regex.re) : re_lang (Regex.Star r) []
| LStarApp (r : Regex.re) (u v : list ascii) :
    re_lang r u -> re_lang (Regex.Star r) v -> re_lang (Regex.Star r) (u ++ v).

(** An address split as [local@domain.tld] the way the pattern reads it. *)
Definition address_parts (l d t : list ascii) : list ascii :=
  l ++ "@"%char :: d ++ "."%char :: t.

(** ** C strings *)

Definition LF : string := String (ascii_of_nat 10) EmptyString.
Definition CRLF : string := String (ascii_of_nat 13) LF.

(** [snprintf(buf, size, ...)]: the formatted text [s], cut to the
    [size - 1] bytes that fit before the terminating NUL. *)
Definition snprintf (size : nat) (s : string) : string :=
  substring 0 (size - 1) s.

(** [sprintf(buf, ...)] into [char buf[size]] stays inside the buffer when
    the formatted text and its NUL fit. *)
Definition sprintf_fits (size : nat) (s : string) : bool :=
  (String.length s <? size)%nat.

(** ** [load_env_variables] *)

(** The global configuration variables. *)
Record config : Type := Config {
  DB_HOST : string;
  DB_PORT : string;
  DB_NAME : string;
  DB_USER : string;
  DB_PASSWORD : string;
  GMAIL_EMAIL : string;
  GMAIL_PASSWORD : string;
  SMTPS_SERVER : string;
  SMTPS_PORT : string;
  SENDER_NAME : string
}.

(** The line written to [stderr] before [exit(1)]. *)
Definition missing_variable (shown : string) : string :=
  ("Error: Missing " ++ shown ++ " environment variable" ++ LF)%string.

(** The lines written to [stdout] once everything is there. *)
Definition loaded_lines (c : config) : list string :=
  [("Environment variables loaded successfully" ++ LF)%string;
   ("Database: " ++ DB_HOST c ++ ":" ++ DB_PORT c ++ "/" ++ DB_NAME c ++ LF)%string;
   ("SMTP: " ++ SMTPS_SERVER c ++ ":" ++ SMTPS_PORT c ++ LF)%string;
   ("Email: " ++ GMAIL_EMAIL c ++ LF)%string;
   ("Sender Name: " ++ SENDER_NAME c ++ LF)%string].

(** [environ] is the process environment ([getenv] is the lookup).  The
    result is either the exit status with the line on [stderr], or the
    configuration with the lines on [stdout]. *)
Definition load_env_variables (environ : gmap string string)
  : (Z * string) + (config * list string) :=
  let db_host := environ !! "POSTGRES_HOST"%string in
  let db_port := environ !! "POSTGRES_PORT"%string in
  let db_name := environ !! "POSTGRES_DB"%string in
  let db_user := environ !! "POSTGRES_USER"%string in
  let db_password := environ !! "POSTGRES_PASSWORD"%string in
  let gmail_email := environ !! "GMAIL_EMAIL"%string in
  let gmail_password := environ !! "GMAIL_APP_PASSWORD"%string in
  let smtps_server := environ !! "SMTPS_SERVER"%string in
  let smtps_port := environ !! "SMTPS_PORT"%string in
  let sender_name := environ !! "SENDER_NAME"%string in
  (* Use default sender name if not provided *)
  let sender_name :=
    match sender_name with
    | None => "OpenFarm"%string
    | Some s => if (String.length s =? 0)%nat then "OpenFarm"%string else s
    end in
  (* Validate required environment variables *)
  match db_host with
  | None => inl (1, missing_variable "POSTGRES_HOST")
  | Some host =>
  match db_port with
  | None => inl (1, missing_variable "POSTGRES_PORT")
  | Some port =>
  match db_name with
  | None => inl (1, missing_variable "POSTGRES_DB")
  | Some name =>
  match db_user with
  | None => inl (1, missing_variable "POSTGRES_USER")
  | Some user =>
  match db_password with
  | None => inl (1, missing_variable "POSTGRES_PASSWORD")
  | Some password =>
  match gmail_email with
  | None => inl (1, missing_variable "GMAIL_EMAIL")
  | Some mail =>
  match gmail_password with
  | None => inl (1, missing_variable "GMAIL_APP_PASSWORD")
  | Some mail_password =>
  match smtps_server with
  | None => inl (1, missing_variable "SMTP_SERVER")
  | Some server =>
  match smtps_port with
  | None => inl (1, missing_variable "SMTP_PORT")
  | Some server_port =>
      let c := Config host port name user password mail mail_password
                      server server_port sender_name in
      inr (c, loaded_lines c)
  end end end end end end end end end.

(** The variables that must be set, in the order in which they are
    checked, each with the name the error message shows for it. *)
Definition required_variables : list (string * string) :=
  [("POSTGRES_HOST", "POSTGRES_HOST"); ("POSTGRES_PORT", "POSTGRES_PORT");
   ("POSTGRES_DB", "POSTGRES_DB"); ("POSTGRES_USER", "POSTGRES_USER");
   ("POSTGRES_PASSWORD", "POSTGRES_PASSWORD"); ("GMAIL_EMAIL", "GMAIL_EMAIL");
   ("GMAIL_APP_PASSWORD", "GMAIL_APP_PASSWORD");
   ("SMTPS_SERVER", "SMTP_SERVER"); ("SMTPS_PORT", "SMTP_PORT")]%string.

Definition is_unset (environ : gmap string string) (v : string * string)
  : bool :=
  match environ !! fst v with None => true | Some _ => false end.

(** ** [connect_to_db] *)

(** The text [sprintf] formats into [char conninfo[256]]. *)
Definition conninfo (c : config) : string :=
  ("host=" ++ DB_HOST c ++ " port=" ++ DB_PORT c ++ " dbname=" ++ DB_NAME c
   ++ " user=" ++ DB_USER c ++ " password=" ++ DB_PASSWORD c)%string.

(** What a call of [connect_to_db] comes to. *)
Inductive connection : Type :=
| Overrun                 (* [sprintf] wrote past the end of [conninfo] *)
| NoConnection            (* [NULL] *)
| Connected (t : table).  (* a connection, with the table behind it *)

(** [server] stands for [PQconnectdb]: the table behind the connection it
    opens for a connection string, or nothing when [PQstatus] of the
    result is not [CONNECTION_OK].  [sprintf] does not bound what it
    writes: a text of 256 characters or more runs over [conninfo], and C
    defines nothing of what the program does from there. *)
Definition connect_to_db (c : config) (server : string -> option table)
  : connection :=
  if sprintf_fits 256 (conninfo c) then
    match server (conninfo c) with
    | Some t => Connected t
    | None => NoConnection
    end
  else Overrun.

(** ** The message [send_email] builds *)

(** [char url[100]] *)
Definition smtp_url (c : config) : string :=
  snprintf 100 ("smtps://" ++ SMTPS_SERVER c ++ ":" ++ SMTPS_PORT c)%string.

(** [char from_header[256]] *)
Definition from_header (c : config) : string :=
  snprintf 256 ("From: " ++ SENDER_NAME c ++ " <" ++ GMAIL_EMAIL c ++ ">")%string.

(** [char to_header[256]] *)
Definition to_header (to : string) : string :=
  snprintf 256 ("To: <" ++ to ++ ">")%string.

(** [char subject_header[512]] *)
Definition subject_header (subj : string) : string :=
  snprintf 512 ("Subject: " ++ subj)%string.

Definition MAX_EMAIL_SIZE : nat := Z.to_nat 8192.

(** The text handed to [snprintf] for [char payload[MAX_EMAIL_SIZE]]. *)
Definition message_text (c : config) (to subj text : string) : string :=
  (from_header c ++ CRLF ++ to_header to ++ CRLF ++ subject_header subj ++ CRLF
   ++ "Content-Type: text/plain; charset=UTF-8" ++ CRLF ++ CRLF
   ++ text ++ CRLF)%string.

Definition payload (c : config) (to subj text : string) : string :=
  snprintf MAX_EMAIL_SIZE (message_text c to subj text).

(** ** [atoi] *)

(** [isspace] in the C locale: space and the controls 9 to 13. *)
Definition isspace (c : ascii) : bool :=
  (N_of_ascii c =? 32)%N || ((9 <=? N_of_ascii c)%N && (N_of_ascii c <=? 13)%N).

Definition isdigit (c : ascii) : bool := Regex.range "0" "9" c.

Definition digit_value (c : ascii) : Z := Z.of_N (N_of_ascii c) - 48.

Fixpoint skip_spaces (s : string) : string :=
  match s with
  | String c s' => if isspace c then skip_spaces s' else s
  | EmptyString => EmptyString
  end.

Fixpoint atoi_digits (acc : Z) (s : string) : Z :=
  match s with
  | String c s' =>
      if isdigit c then atoi_digits (10 * acc + digit_value c) s' else acc
  | EmptyString => acc
  end.

(** Leading white space, an optional sign, then the longest run of
    digits; 0 when there is none.  This is the number the text denotes,
    of any size. *)
Definition decimal_value (s : string) : Z :=
  match skip_spaces s with
  | String "-" r => - atoi_digits 0 r
  | String "+" r => atoi_digits 0 r
  | r => atoi_digits 0 r
  end.

Definition LONG_MIN : Z := - 2 ^ 63.
Definition LONG_MAX : Z := 2 ^ 63 - 1.

(** [strtol(s, NULL, 10)] with a 64-bit [long]: a value out of range is
    replaced by the nearest bound. *)
Definition strtol (s : string) : Z :=
  Z.max LONG_MIN (Z.min LONG_MAX (decimal_value s)).

(** The conversion of a [long] to [int]: the low 32 bits, read as a
    two's-complement number. *)
Definition int_of_long (x : Z) : Z := (x + 2 ^ 31) mod 2 ^ 32 - 2 ^ 31.

(** [atoi(s)] is [(int) strtol(s, NULL, 10)].  C leaves the result
    undefined when the number is not representable in [int]; this is what
    the C library the program is linked with returns there. *)
Definition atoi (s : string) : Z := int_of_long (strtol s).

(** ** [main] *)

(** What the server answers to the two statements of the start-up. *)
Record boot : Type := Boot {
  listen_ok : bool;   (* the server executes LISTEN new_ticket *)
  backlog_ok : bool   (* the server executes the backlog query *)
}.

(** Where [main] stands: returned with an exit status, in its event loop,
    or past a write beyond the end of [conninfo], from where its behaviour
    is undefined. *)
Inductive progress : Type :=
| Exited (status : Z) (tr : list event)
| Serving (tr : list event) (w : world)
| Undefined.

(** The calls of the backlog loop: row [i] of the result names the
    ticket, and [oracle i] is the environment of its call. *)
Definition backlog_calls (res : PGresult) (oracle : nat -> env)
  : list (Z * env) :=
  imap (fun i (row : list string) => (atoi (PQgetvalue res i 0), oracle i))
       (tuples res).

(** [main] up to the event loop. *)
Definition main_startup (environ : gmap string string)
    (server : string -> option table) (b : boot) (oracle : nat -> env)
  : progress :=
  match load_env_variables environ with
  | inl (status, _) => Exited status []
  | inr (c, _) =>
      match connect_to_db c server with
      | Overrun => Undefined
      | NoConnection => Exited 1 []
      | Connected t =>
          (* Set up notification listening *)
          let '(res, t1) := PQexec (listen_ok b) 0 Listen t in
          let ev1 := [EvExec Listen (PQresultStatus res)] in
          if negb (ExecStatusType_eqb (PQresultStatus res) PGRES_COMMAND_OK)
          then Exited 1 ev1
          else
            (* Process any existing tickets in received or processing state *)
            let '(res, t2) := PQexec (backlog_ok b) 0 SelectBacklog t1 in
            let ev2 := ev1 ++ [EvExec SelectBacklog (PQresultStatus res)] in
            if ExecStatusType_eqb (PQresultStatus res) PGRES_TUPLES_OK then
              let '(ev, w) := run (launch t2) (backlog_calls res oracle) in
              Serving (ev2 ++ ev) w
            else Serving ev2 (launch t2)
      end
  end.

(** One turn of the event loop: every pending notification names a ticket
    in its payload; then [sleep(1)]. *)
Definition serve_once (w : world) (pending : list (string * env))
  : list event * world :=
  let '(ev, w1) :=
    run w (map (fun n : string * env => (atoi (fst n), snd n)) pending) in
  (ev ++ [EvSleep 1], w1).

(** The first turns of the event loop, one list of notifications each. *)
Fixpoint serve (w : world) (turns : list (list (string * env)))
  : list event * world :=
  match turns with
  | [] => ([], w)
  | pending :: rest =>
      let '(ev, w1) := serve_once w pending in
      let '(evs, w2) := serve w1 rest in
      (ev ++ evs, w2)
  end.

(** ** Sample environments *)

(** All nine required variables set (the host to the empty string) and
    SENDER_NAME set to the empty string. *)
Definition sample_environ : gmap string string :=
  list_to_map
    [("POSTGRES_HOST", ""); ("POSTGRES_PORT", "5432");
     ("POSTGRES_DB", "farm"); ("POSTGRES_USER", "u");
     ("POSTGRES_PASSWORD", "p"); ("GMAIL_EMAIL", "me@x.org");
     ("GMAIL_APP_PASSWORD", "q"); ("SMTPS_SERVER", "smtp.x.org");
     ("SMTPS_PORT", "465"); ("SENDER_NAME", "")]%string.

(** The same with a host name of 221 characters. *)
Definition long_environ : gmap string string :=
  <["POSTGRES_HOST"%string :=
      string_of_list_ascii (repeat "a"%char 221)]> sample_environ.

Definition sample_config : config :=
  Config "db" "5432" "farm" "u" "p" "me@x.org" "q" "smtp.x.org" "465"
         "OpenFarm".

(** ** Further observations *)

(** The tickets the backlog query selects: those not ['completed']. *)
Definition pending_rows (t : table) : list (Z * ticket) :=
  filter (fun p : Z * ticket =>
            negb (Status_eqb (status (snd p)) completed) = true)
         (map_to_list t).

(** Every id of the table is representable in [int], as [atoi] needs. *)
Definition int_ids (t : table) : Prop :=
  forall id, is_Some (t !! id) -> - 2 ^ 31 <= id < 2 ^ 31.

(** An environment in which every statement is executed and the mail is
    accepted. *)
Definition healthy (e : env) : bool :=
  claim_ok e && fetch_ok e && reject_ok e && complete_ok e
  && (negb (curl_handle e) || (perform_res e =? CURLE_OK)).

(** The order of the life cycle. *)
Definition status_rank (s : Status) : nat :=
  match s with received => 0 | processing => 1 | completed => 2 end.

(** A server that answers every connection string with [sample_table]. *)
Definition sample_server (conn : string) : option table := Some sample_table.

Definition sample_boot : boot := {| listen_ok := true; backlog_ok := true |}.

(** The calls the event loop makes over [turns], in order. *)
Definition turn_calls (turns : list (list (string * env))) : list (Z * env) :=
  concat (map (map (fun n : string * env => (atoi (fst n), snd n))) turns).

(** ** The event loop among other clients *)

(** What the event loop meets, in order: a row that a client of the
    database inserts, a notification that [PQnotifies] returns, or an
    empty queue ([PQnotifies] returns [NULL]). *)
Inductive occurrence : Type :=
| Arrival (id : Z) (r : ticket)
| Notification (extra : string) (e : env)
| QueueEmpty.

(** A client's [INSERT]: refused when the id is taken. *)
Definition client_insert (id : Z) (r : ticket) (t : table) : table :=
  match t !! id with
  | Some _ => t
  | None => <[id := r]> t
  end.

(** The loop of [main] up to some moment: [process_ticket] for the ticket
    a notification names, [sleep(1)] when the queue is empty; a row that
    arrives is in the table from then on. *)
Fixpoint event_loop (w : world) (os : list occurrence) : list event * world :=
  match os with
  | [] => ([], w)
  | Arrival id r :: rest =>
      event_loop (World (client_insert id r (db w)) (auth_failures w)) rest
  | Notification extra e :: rest =>
      let '(ev, w1) := process_ticket e w (atoi extra) in
      let '(evs, w2) := event_loop w1 rest in
      (ev ++ evs, w2)
  | QueueEmpty :: rest =>
      let '(evs, w2) := event_loop w rest in
      (EvSleep 1 :: evs, w2)
  end.

(** The ids of the rows that arrive. *)
Definition arrivals (os : list occurrence) : list Z :=
  omap (fun o => match o with Arrival id _ => Some id | _ => None end) os.

(** The turns of [serve] as occurrences: no row arrives. *)
Definition turn_occurrences (turns : list (list (string * env)))
  : list occurrence :=
  concat (map (fun pending : list (string * env) =>
                 map (fun n => Notification (fst n) (snd n)) pending
                 ++ [QueueEmpty])
              turns).

(** A row [r'] that is [r] further along: the same address, subject and
    text, and a status that is not earlier in the life cycle. *)
Definition carries_on (r r' : ticket) : Prop :=
  email r' = email r /\ subject r' = subject r /\ body r' = body r /\
  (status_rank (status r) <= status_rank (status r'))%nat.

(** A table with a ticket that arrives after the start-up. *)
Definition ticket_77 : ticket := Ticket "x@y.net" "S" "B" received None.

Definition sample_occurrences : list occurrence :=
  [Notification "42" env_send_fails; QueueEmpty;
   Arrival 77 ticket_77; Notification "77" env_fine;
   Notification "99999999999" env_fine; QueueEmpty].


(** * Properties *)

(** ** The address pattern on sample addresses *)

Example is_valid_email_a_b_com : is_valid_email "a@b.com" = 1.
Proof. vm_compute. reflexivity. Qed.

Example is_valid_email_not_an_email : is_valid_email "not-an-email" = 0.
Proof. vm_compute. reflexivity. Qed.

Example is_valid_email_short_tld : is_valid_email "a@b.c" = 0.
Proof. vm_compute. reflexivity. Qed.

Example is_valid_email_two_ats : is_valid_email "a@b@c.de" = 0.
Proof. vm_compute. reflexivity. Qed.

Example is_valid_email_dotted : is_valid_email "first.last+tag@mail.example.org" = 1.
Proof. vm_compute. reflexivity. Qed.

(** ** The statements on the table *)

Arguments is_valid_email : simpl never.

Lemma Status_eqb_eq (a b : Status) : Status_eqb a b = true <-> a = b.
Proof. destruct a, b; simpl; split; congruence. Qed.

(** What the claim update leaves at [id]. *)
Lemma claim_lookup (id ts : Z) (t : table) (r : ticket) :
  t !! id = Some r ->
  exec_table (UpdateClaim id) ts t !! id =
    Some (if Status_eqb (status r) completed then r
          else with_status processing r).
Proof.
  intros H. simpl. rewrite lookup_alter_eq, H. simpl. f_equal.
  destruct r as [em su bo st sa]; destruct st; reflexivity.
Qed.

Lemma claim_lookup_ne (id ts j : Z) (t : table) :
  id <> j -> exec_table (UpdateClaim id) ts t !! j = t !! j.
Proof. intros H. simpl. by rewrite lookup_alter_ne. Qed.

(** The claim update changes the table only for a row in ['received']. *)
Lemma claim_unchanged (id ts : Z) (t : table) :
  rows_affected (UpdateClaim id) t = 0 ->
  exec_table (UpdateClaim id) ts t = t.
Proof.
  simpl. intros H. apply alter_id. intros r Hr. rewrite Hr in H.
  destruct (Status_eqb (status r) received); [discriminate | reflexivity].
Qed.

(** The select after the claim update finds the row unless it is absent
    or ['completed']. *)
Lemma fetch_after_claim (id ts : Z) (t : table) (r : ticket) :
  t !! id = Some r ->
  exec_rows (SelectClaimed id) (exec_table (UpdateClaim id) ts t) =
    if Status_eqb (status r) completed then []
    else [[email r; subject r; body r]].
Proof.
  intros H. cbn [exec_rows]. rewrite (claim_lookup id ts t r H).
  destruct r as [em su bo st sa]; destruct st; reflexivity.
Qed.

Lemma fetch_absent (id ts : Z) (t : table) :
  t !! id = None ->
  exec_rows (SelectClaimed id) (exec_table (UpdateClaim id) ts t) = [].
Proof.
  intros H. simpl. rewrite lookup_alter_eq, H. reflexivity.
Qed.

(** No statement removes or adds a row. *)
Lemma exec_table_is_Some (q : stmt) (ts j : Z) (t : table) :
  is_Some (exec_table q ts t !! j) <-> is_Some (t !! j).
Proof.
  destruct q; simpl; try reflexivity; apply lookup_alter_is_Some.
Qed.

Lemma PQexec_is_Some (srv : bool) (q : stmt) (ts j : Z) (t : table) :
  is_Some (snd (PQexec srv ts q t) !! j) <-> is_Some (t !! j).
Proof.
  unfold PQexec. destruct srv; simpl; [apply exec_table_is_Some | reflexivity].
Qed.

(** ** The backoff gate and [send_email] *)

Lemma backoff_gate_ge (c : Z) :
  MAX_AUTH_FAILURES <= c -> backoff_gate c = ([EvSleep 900], 0).
Proof.
  intros H. unfold backoff_gate.
  destruct (Z.geb_spec c MAX_AUTH_FAILURES); [reflexivity | lia].
Qed.

Lemma backoff_gate_lt (c : Z) :
  c < MAX_AUTH_FAILURES -> backoff_gate c = ([], c).
Proof.
  intros H. unfold backoff_gate.
  destruct (Z.geb_spec c MAX_AUTH_FAILURES); [lia | reflexivity].
Qed.

Lemma backoff_gate_bound (c : Z) :
  0 <= c -> 0 <= snd (backoff_gate c) < MAX_AUTH_FAILURES.
Proof.
  intros H. unfold backoff_gate, MAX_AUTH_FAILURES.
  destruct (Z.geb_spec c 5); simpl; lia.
Qed.

Lemma backoff_gate_le (c : Z) : snd (backoff_gate c) <= c.
Proof.
  unfold backoff_gate, MAX_AUTH_FAILURES.
  destruct (Z.geb_spec c 5); simpl; lia.
Qed.

Lemma send_email_ret (e : env) (to subj text : string) :
  snd (send_email e to subj text) =
    if curl_handle e then (if perform_res e =? CURLE_OK then 1 else 0) else 1.
Proof.
  unfold send_email. destruct (curl_handle e); [| reflexivity].
  destruct (perform_res e =? CURLE_OK); reflexivity.
Qed.

Lemma send_email_events (e : env) (to subj text : string) :
  fst (send_email e to subj text) =
    if curl_handle e then [EvPerform to (perform_res e)] else [].
Proof.
  unfold send_email. destruct (curl_handle e); [| reflexivity].
  destruct (perform_res e =? CURLE_OK); reflexivity.
Qed.

(** ** The paths through [process_ticket] *)

Ltac enter_path :=
  unfold process_ticket, fetched_events, gate_events, gate_counter;
  destruct (backoff_gate (auth_failures _)) as [g c'].

Ltac past_fetch Hrow :=
  unfold claimed in *; unfold PQexec at 1 2;
  cbn [PQresultStatus ExecStatusType_eqb ok_status negb];
  unfold PQntuples, PQgetvalue; cbn [tuples];
  rewrite Hrow; cbn [length nth];
  change (Z.of_nat 1 =? 0) with false; cbn [orb];
  match goal with
  | |- context [exec_table (SelectClaimed ?i) ?ts ?t] =>
      change (exec_table (SelectClaimed i) ts t) with t
  end.

(** The claim update is refused: return at once. *)
Lemma path_claim_error (e : env) (w : world) (id : Z) :
  claim_ok e = false ->
  process_ticket e w id =
    (gate_events w ++ [EvExec (UpdateClaim id) PGRES_FATAL_ERROR],
     World (db w) (gate_counter w)).
Proof. intros H. enter_path. rewrite H. reflexivity. Qed.

(** The select is refused. *)
Lemma path_fetch_error (e : env) (w : world) (id : Z) :
  claim_ok e = true -> fetch_ok e = false ->
  process_ticket e w id =
    (gate_events w ++ [EvExec (UpdateClaim id) PGRES_COMMAND_OK;
                       EvExec (SelectClaimed id) PGRES_FATAL_ERROR],
     World (claimed e w id) (gate_counter w)).
Proof.
  intros H1 H2. enter_path. rewrite H1, H2. cbn.
  rewrite <- app_assoc. reflexivity.
Qed.

(** The select is executed and returns no row. *)
Lemma path_no_row (e : env) (w : world) (id : Z) :
  claim_ok e = true -> fetch_ok e = true ->
  exec_rows (SelectClaimed id) (claimed e w id) = [] ->
  process_ticket e w id =
    (fetched_events w id, World (claimed e w id) (gate_counter w)).
Proof.
  intros H1 H2 H3. enter_path. rewrite H1, H2.
  unfold PQexec. cbn [PQresultStatus ExecStatusType_eqb ok_status negb].
  unfold PQntuples. cbn [tuples].
  change (exec_table (UpdateClaim id) (now e) (db w)) with (claimed e w id).
  rewrite H3. cbn. rewrite <- app_assoc. reflexivity.
Qed.

(** The address does not match: the invalid-address update, then return. *)
Lemma path_rejected (e : env) (w : world) (id : Z) (r : ticket) :
  claim_ok e = true -> fetch_ok e = true ->
  exec_rows (SelectClaimed id) (claimed e w id) = [[email r; subject r; body r]] ->
  is_valid_email (email r) = 0 ->
  process_ticket e w id =
    (fetched_events w id
       ++ [EvExec (UpdateRejected id)
             (PQresultStatus
                (fst (PQexec (reject_ok e) (now e) (UpdateRejected id)
                        (claimed e w id))))],
     World (snd (PQexec (reject_ok e) (now e) (UpdateRejected id)
                   (claimed e w id)))
           (gate_counter w)).
Proof.
  intros Hclaim Hfetch Hrow Hv. enter_path. rewrite Hclaim, Hfetch.
  past_fetch Hrow. rewrite Hv. cbn [Z.eqb].
  destruct (PQexec (reject_ok e) (now e) (UpdateRejected id) _) as [res3 db3].
  cbn. rewrite <- !app_assoc. reflexivity.
Qed.

(** The address matches and [send_email] returns non-zero. *)
Lemma path_sent (e : env) (w : world) (id : Z) (r : ticket) :
  claim_ok e = true -> fetch_ok e = true ->
  exec_rows (SelectClaimed id) (claimed e w id) = [[email r; subject r; body r]] ->
  is_valid_email (email r) <> 0 ->
  snd (send_email e (email r) (subject r) (body r)) <> 0 ->
  process_ticket e w id =
    (fetched_events w id
       ++ fst (send_email e (email r) (subject r) (body r))
       ++ [EvSend (email r) (subject r) (body r)
             (snd (send_email e (email r) (subject r) (body r)));
           EvExec (UpdateCompleted id)
             (PQresultStatus
                (fst (PQexec (complete_ok e) (now e) (UpdateCompleted id)
                        (claimed e w id))))],
     World (snd (PQexec (complete_ok e) (now e) (UpdateCompleted id)
                   (claimed e w id)))
           0).
Proof.
  intros Hclaim Hfetch Hrow Hv Hs. enter_path. rewrite Hclaim, Hfetch.
  past_fetch Hrow. apply Z.eqb_neq in Hv. rewrite Hv.
  destruct (send_email e (email r) (subject r) (body r)) as [evs sent].
  cbn [fst snd] in *. apply Z.eqb_neq in Hs. rewrite Hs. cbn [negb].
  destruct (PQexec (complete_ok e) (now e) (UpdateCompleted id) _) as [res3 db3].
  cbn. rewrite <- !app_assoc. reflexivity.
Qed.

(** The address matches and [send_email] returns zero. *)
Lemma path_send_failed (e : env) (w : world) (id : Z) (r : ticket) :
  claim_ok e = true -> fetch_ok e = true ->
  exec_rows (SelectClaimed id) (claimed e w id) = [[email r; subject r; body r]] ->
  is_valid_email (email r) <> 0 ->
  snd (send_email e (email r) (subject r) (body r)) = 0 ->
  process_ticket e w id =
    (fetched_events w id
       ++ fst (send_email e (email r) (subject r) (body r))
       ++ [EvSend (email r) (subject r) (body r) 0],
     World (claimed e w id) (gate_counter w + 1)).
Proof.
  intros Hclaim Hfetch Hrow Hv Hs. enter_path. rewrite Hclaim, Hfetch.
  past_fetch Hrow. apply Z.eqb_neq in Hv. rewrite Hv.
  destruct (send_email e (email r) (subject r) (body r)) as [evs sent].
  cbn [fst snd] in *. subst sent. cbn.
  rewrite <- !app_assoc. reflexivity.
Qed.

(** The rows of the select: none, or the one row at [id], in ['processing']. *)
Lemma fetch_rows_cases (id : Z) (t : table) :
  exec_rows (SelectClaimed id) t = [] \/
  exists r, t !! id = Some r /\ status r = processing /\
            exec_rows (SelectClaimed id) t = [[email r; subject r; body r]].
Proof.
  cbn [exec_rows]. destruct (t !! id) as [r|] eqn:E; [| by left].
  destruct (Status_eqb (status r) processing) eqn:S; [| by left].
  right. exists r. apply Status_eqb_eq in S. auto.
Qed.

(** Every call follows one of the six paths. *)
Lemma process_ticket_shape (e : env) (w : world) (id : Z) :
  shape e w id (process_ticket e w id).
Proof.
  destruct (claim_ok e) eqn:Hc.
  2:{ apply ClaimError; [done | by apply path_claim_error]. }
  destruct (fetch_ok e) eqn:Hf.
  2:{ apply FetchError; [done | done | by apply path_fetch_error]. }
  destruct (fetch_rows_cases id (claimed e w id)) as [Hn | (r & Hr & Hs & Hrow)].
  { apply NoRow; [done | done | done | by apply path_no_row]. }
  destruct (Z.eq_dec (is_valid_email (email r)) 0) as [Hv | Hv].
  { apply (Rejected e w id _ r); [done..| by apply (path_rejected e w id r)]. }
  destruct (Z.eq_dec (snd (send_email e (email r) (subject r) (body r))) 0)
    as [Hz | Hz].
  - apply (SendFailed e w id _ r); [done..| by apply (path_send_failed e w id r)].
  - apply (Sent e w id _ r); [done..| by apply (path_sent e w id r)].
Qed.

(** ** Counting events *)

Lemma count_app (p : event -> bool) (a b : list event) :
  count p (a ++ b) = (count p a + count p b)%nat.
Proof. unfold count. rewrite List.filter_app, length_app. reflexivity. Qed.

Lemma gate_events_cases (w : world) :
  (auth_failures w < MAX_AUTH_FAILURES /\ gate_events w = []
   /\ gate_counter w = auth_failures w) \/
  (MAX_AUTH_FAILURES <= auth_failures w /\ gate_events w = [EvSleep 900]
   /\ gate_counter w = 0).
Proof.
  unfold gate_events, gate_counter.
  destruct (Z_lt_le_dec (auth_failures w) MAX_AUTH_FAILURES) as [H | H].
  - left. rewrite (backoff_gate_lt _ H). auto.
  - right. rewrite (backoff_gate_ge _ H). auto.
Qed.

Lemma count_gate_events (p : event -> bool) (w : world) :
  (forall s, p (EvSleep s) = false) -> count p (gate_events w) = 0%nat.
Proof.
  intros Hp. destruct (gate_events_cases w) as [(_ & -> & _) | (_ & -> & _)].
  - reflexivity.
  - unfold count. simpl. rewrite Hp. reflexivity.
Qed.

Lemma count_send_email (p : event -> bool) (e : env) (to subj text : string) :
  (forall a b, p (EvPerform a b) = false) ->
  count p (fst (send_email e to subj text)) = 0%nat.
Proof.
  intros Hp. rewrite send_email_events. destruct (curl_handle e); [| reflexivity].
  unfold count. simpl. rewrite Hp. reflexivity.
Qed.

(** The gate never leaves the counter at or above the threshold. *)
Lemma gate_counter_lt (w : world) : gate_counter w < MAX_AUTH_FAILURES.
Proof.
  destruct (gate_events_cases w) as [(H & _ & ->) | (_ & _ & ->)];
    [assumption | reflexivity].
Qed.

Lemma gate_counter_le (w : world) : gate_counter w <= auth_failures w.
Proof. apply backoff_gate_le. Qed.

(** ** What a call leaves in the counter *)

Lemma counter_cases (e : env) (w : world) (id : Z) :
  let c' := auth_failures (snd (process_ticket e w id)) in
  c' = gate_counter w \/ c' = 0 \/ c' = gate_counter w + 1.
Proof.
  destruct (process_ticket_shape e w id); rewrite Eres; cbn; auto.
Qed.

Lemma counter_bound (e : env) (w : world) (id : Z) :
  0 <= auth_failures w ->
  0 <= auth_failures (snd (process_ticket e w id)) <= MAX_AUTH_FAILURES.
Proof.
  intros H0. pose proof (gate_counter_lt w) as Hlt.
  assert (0 <= gate_counter w) as Hge by (apply backoff_gate_bound; exact H0).
  unfold MAX_AUTH_FAILURES in *.
  destruct (counter_cases e w id) as [-> | [-> | ->]]; lia.
Qed.

(** ** What a call leaves in the table *)

Lemma claimed_lookup_ne (e : env) (w : world) (id j : Z) :
  id <> j -> claimed e w id !! j = db w !! j.
Proof. apply claim_lookup_ne. Qed.

Lemma rejected_lookup_ne (srv : bool) (ts id j : Z) (t : table) :
  id <> j -> snd (PQexec srv ts (UpdateRejected id) t) !! j = t !! j.
Proof.
  intros H. unfold PQexec. destruct srv; cbn; [| reflexivity].
  by rewrite lookup_alter_ne.
Qed.

Lemma completed_lookup_ne (srv : bool) (ts id j : Z) (t : table) :
  id <> j -> snd (PQexec srv ts (UpdateCompleted id) t) !! j = t !! j.
Proof.
  intros H. unfold PQexec. destruct srv; cbn; [| reflexivity].
  by rewrite lookup_alter_ne.
Qed.

(** A call touches no row but the one it was called for. *)
Lemma process_ticket_other (e : env) (w : world) (id j : Z) :
  id <> j -> db (snd (process_ticket e w id)) !! j = db w !! j.
Proof.
  intros H. destruct (process_ticket_shape e w id); rewrite Eres;
    cbn [snd db];
    rewrite ?rejected_lookup_ne, ?completed_lookup_ne, ?claimed_lookup_ne;
    done.
Qed.

(** A row that is not ['completed'] is returned by the select, in
    ['processing']. *)
Lemma claimed_rows_live (e : env) (w : world) (id : Z) (r0 : ticket) :
  db w !! id = Some r0 -> status r0 <> completed ->
  claimed e w id !! id = Some (with_status processing r0) /\
  exec_rows (SelectClaimed id) (claimed e w id) =
    [[email r0; subject r0; body r0]].
Proof.
  intros H Hs. unfold claimed.
  rewrite (fetch_after_claim id (now e) (db w) r0 H).
  rewrite (claim_lookup id (now e) (db w) r0 H).
  destruct (Status_eqb (status r0) completed) eqn:S.
  - apply Status_eqb_eq in S. contradiction.
  - auto.
Qed.

(** An absent or ['completed'] row: the claim update changes nothing and
    the select returns nothing. *)
Lemma claimed_rows_dead (e : env) (w : world) (id : Z) :
  db w !! id = None \/ status_of (db w) id = Some completed ->
  claimed e w id = db w /\
  exec_rows (SelectClaimed id) (claimed e w id) = [].
Proof.
  unfold status_of, claimed. intros [H | H].
  - split; [| by apply fetch_absent].
    apply claim_unchanged. simpl. by rewrite H.
  - destruct (db w !! id) as [r0|] eqn:E; [| discriminate].
    simpl in H. injection H as H. split.
    + apply claim_unchanged. simpl. rewrite E, H. reflexivity.
    + rewrite (fetch_after_claim id (now e) (db w) r0 E). rewrite H. reflexivity.
Qed.

Lemma rows_of_lookup (id : Z) (t : table) (r : ticket) :
  t !! id = Some r -> status r = processing ->
  exec_rows (SelectClaimed id) t = [[email r; subject r; body r]].
Proof. intros H Hs. cbn [exec_rows]. rewrite H, Hs. reflexivity. Qed.

(** ** The gate, then the rest of the call *)

(** A call is the gate followed by the same call entered with the counter
    the gate leaves. *)
Lemma process_ticket_gate (e : env) (w : world) (id : Z) :
  process_ticket e w id =
    (gate_events w ++ fst (process_ticket e (World (db w) (gate_counter w)) id),
     snd (process_ticket e (World (db w) (gate_counter w)) id)).
Proof.
  set (w' := World (db w) (gate_counter w)).
  assert (gate_events w' = [] /\ gate_counter w' = gate_counter w) as [Eg Ec].
  { pose proof (gate_counter_lt w) as Hlt.
    unfold gate_events, gate_counter at 1. subst w'. cbn [auth_failures].
    rewrite (backoff_gate_lt _ Hlt). auto. }
  assert (forall i, fetched_events w' i =
                    [EvExec (UpdateClaim i) PGRES_COMMAND_OK;
                     EvExec (SelectClaimed i) PGRES_TUPLES_OK]) as Ef.
  { intros i. unfold fetched_events. rewrite Eg. reflexivity. }
  destruct (process_ticket_shape e w id); rewrite Eres.
  - rewrite (path_claim_error e w' id Hclaim), Eg, Ec. reflexivity.
  - rewrite (path_fetch_error e w' id Hclaim Hfetch), Eg, Ec. reflexivity.
  - rewrite (path_no_row e w' id Hclaim Hfetch Hrows), Ef, Ec. reflexivity.
  - pose proof (rows_of_lookup _ _ _ Hrow Hst) as R.
    rewrite (path_rejected e w' id r Hclaim Hfetch R Hvalid), Ef, Ec.
    cbn [fst snd]. unfold fetched_events. rewrite <- app_assoc. reflexivity.
  - pose proof (rows_of_lookup _ _ _ Hrow Hst) as R.
    rewrite (path_sent e w' id r Hclaim Hfetch R Hvalid Hsent), Ef.
    cbn [fst snd]. unfold fetched_events. rewrite <- app_assoc. reflexivity.
  - pose proof (rows_of_lookup _ _ _ Hrow Hst) as R.
    rewrite (path_send_failed e w' id r Hclaim Hfetch R Hvalid Hsent), Ef, Ec.
    cbn [fst snd]. unfold fetched_events. rewrite <- app_assoc. reflexivity.
Qed.

Ltac count_trace :=
  cbn [fst]; unfold fetched_events;
  rewrite ?count_app, ?count_gate_events, ?count_send_email by done.

(** The only sleep of a call is the one of the gate. *)
Lemma count_sleep (e : env) (w : world) (id : Z) :
  count is_sleep (fst (process_ticket e w id)) = count is_sleep (gate_events w).
Proof.
  destruct (process_ticket_shape e w id); rewrite Eres; count_trace;
    generalize (count is_sleep (gate_events w)); intros n;
    unfold count; simpl; lia.
Qed.

(** ** Claims about the failure counter *)

(** C4. In every call of [process_ticket]: if the failure counter is at
    least 5 at entry, the call starts with one sleep of 900 seconds (15
    minutes), no other sleep follows, and what follows is the call as it
    runs from the same table with the counter at 0; if the counter is
    below 5 at entry, the call does not sleep. *)
Theorem C4_backoff_gate (e : env) (w : world) (id : Z) :
  (5 <= auth_failures w ->
   exists rest,
     fst (process_ticket e w id) = EvSleep 900 :: rest /\
     count is_sleep rest = 0%nat /\
     process_ticket e (World (db w) 0) id = (rest, snd (process_ticket e w id)))
  /\
  (auth_failures w < 5 ->
   count is_sleep (fst (process_ticket e w id)) = 0%nat).
Proof.
  split; intros H.
  - destruct (gate_events_cases w) as [(Hlt & _) | (_ & Eg & Ec)];
      [unfold MAX_AUTH_FAILURES in Hlt; lia |].
    exists (fst (process_ticket e (World (db w) 0) id)).
    rewrite (process_ticket_gate e w id), Eg, Ec. cbn [fst snd].
    split; [reflexivity |]. split.
    + rewrite count_sleep. unfold gate_events. cbn [auth_failures].
      rewrite backoff_gate_lt by reflexivity. reflexivity.
    + destruct (process_ticket e (World (db w) 0) id); reflexivity.
  - rewrite count_sleep.
    destruct (gate_events_cases w) as [(_ & -> & _) | (Hge & _)];
      [reflexivity | unfold MAX_AUTH_FAILURES in Hge; lia].
Qed.

Lemma C4_backoff_gate_witness :
  (exists rest,
     fst (process_ticket env_fine (World sample_table 5) 42) = EvSleep 900 :: rest /\
     count is_sleep rest = 0%nat /\
     process_ticket env_fine (World sample_table 0) 42 =
       (rest, snd (process_ticket env_fine (World sample_table 5) 42)))
  /\ count is_sleep (fst (process_ticket env_fine (World sample_table 4) 42)) = 0%nat.
Proof.
  split.
  - apply (proj1 (C4_backoff_gate env_fine (World sample_table 5) 42)).
    cbn. lia.
  - apply (proj2 (C4_backoff_gate env_fine (World sample_table 4) 42)).
    cbn. lia.
Defined.

(** ** Calls that reach [send_email] *)

(** A call whose trace has a successful send took the success branch. *)
Lemma send_ok_inv (e : env) (w : world) (id : Z) :
  (0 < count is_send_ok (fst (process_ticket e w id)))%nat ->
  exists r,
    claimed e w id !! id = Some r /\ status r = processing /\
    is_valid_email (email r) <> 0 /\
    snd (send_email e (email r) (subject r) (body r)) <> 0 /\
    count is_send_ok (fst (process_ticket e w id)) = 1%nat /\
    snd (process_ticket e w id) =
      World (snd (PQexec (complete_ok e) (now e) (UpdateCompleted id)
                    (claimed e w id))) 0.
Proof.
  destruct (process_ticket_shape e w id); rewrite Eres; count_trace;
    cbn [snd]; intros H.
  1-4: exfalso; revert H; unfold count; simpl; lia.
  - exists r. repeat (split; [assumption |]). split; [| reflexivity].
    unfold count. simpl. apply Z.eqb_neq in Hsent. rewrite Hsent. reflexivity.
  - exfalso; revert H; unfold count; simpl; lia.
Qed.

(** A call whose trace has a failed send took the failure branch. *)
Lemma send_failed_inv (e : env) (w : world) (id : Z) :
  (0 < count is_send_failed (fst (process_ticket e w id)))%nat ->
  exists r,
    claimed e w id !! id = Some r /\ status r = processing /\
    is_valid_email (email r) <> 0 /\
    snd (send_email e (email r) (subject r) (body r)) = 0 /\
    count is_send_failed (fst (process_ticket e w id)) = 1%nat /\
    snd (process_ticket e w id) = World (claimed e w id) (gate_counter w + 1).
Proof.
  destruct (process_ticket_shape e w id); rewrite Eres; count_trace;
    cbn [snd]; intros H.
  1-4: exfalso; revert H; unfold count; simpl; lia.
  - exfalso; revert H; unfold count; simpl.
    apply Z.eqb_neq in Hsent. rewrite Hsent. simpl. lia.
  - exists r. repeat (split; [assumption |]). split; reflexivity.
Qed.


(** ** Runs *)

Lemma run_cons (w : world) (id : Z) (e : env) (rest : list (Z * env)) :
  run w ((id, e) :: rest) =
    (fst (process_ticket e w id) ++ fst (run (snd (process_ticket e w id)) rest),
     snd (run (snd (process_ticket e w id)) rest)).
Proof.
  cbn [run]. destruct (process_ticket e w id) as [ev w1]. cbn [fst snd].
  destruct (run w1 rest) as [evs w2]. reflexivity.
Qed.

Lemma run_app (w : world) (a b : list (Z * env)) :
  run w (a ++ b) =
    (fst (run w a) ++ fst (run (snd (run w a)) b), snd (run (snd (run w a)) b)).
Proof.
  revert w. induction a as [| [id e] a IH]; intros w.
  - cbn. destruct (run w b); reflexivity.
  - rewrite <- app_comm_cons, !run_cons, IH. cbn [fst snd].
    rewrite app_assoc. reflexivity.
Qed.

Lemma run_counter_bound (w : world) (calls : list (Z * env)) :
  0 <= auth_failures w <= MAX_AUTH_FAILURES ->
  0 <= auth_failures (snd (run w calls)) <= MAX_AUTH_FAILURES.
Proof.
  revert w. induction calls as [| [id e] rest IH]; intros w H.
  - exact H.
  - rewrite run_cons. cbn [snd]. apply IH. apply counter_bound. lia.
Qed.

(** Failed sends in a row count up, as long as the gate stays open. *)
Lemma failed_sends_count (w : world) (fails : list (Z * env)) :
  0 <= auth_failures w ->
  auth_failures w + Z.of_nat (length fails) <= MAX_AUTH_FAILURES ->
  all_sends_failed w fails = true ->
  auth_failures (snd (run w fails)) = auth_failures w + Z.of_nat (length fails).
Proof.
  revert w. induction fails as [| [id e] rest IH]; intros w H0 Hle Hall.
  - cbn. lia.
  - rewrite run_cons. cbn [snd].
    cbn [all_sends_failed] in Hall.
    destruct (process_ticket e w id) as [ev w1] eqn:E.
    apply andb_prop in Hall as [H1 Hrest]. apply Nat.eqb_eq in H1.
    destruct (send_failed_inv e w id) as (r & _ & _ & _ & _ & _ & Hw).
    { rewrite E. cbn [fst]. lia. }
    rewrite E in Hw. cbn [snd] in Hw |- *.
    assert (gate_counter w = auth_failures w) as Eg.
    { destruct (gate_events_cases w) as [(_ & _ & G) | (G & _)]; [exact G |].
      cbn [length] in Hle. lia. }
    assert (auth_failures w1 = auth_failures w + 1) as Ec.
    { rewrite Hw. cbn. lia. }
    cbn [length] in Hle |- *. rewrite IH; [lia | lia | lia | exact Hrest].
Qed.

(** C10. Between calls of [process_ticket] the failure counter is never
    negative and never exceeds 5: this holds at launch and after every
    sequence of calls, whatever the tickets and whatever the environment
    answers.  The reason is the backoff gate: it leaves a value below 5,
    so that a call, which adds at most 1 to it, ends at 5 or below from
    any value at entry. *)
Theorem C10_counter_never_exceeds_threshold :
  (forall (t : table) (calls : list (Z * env)),
     0 <= auth_failures (snd (run (launch t) calls)) <= 5) /\
  (forall e w id,
     gate_counter w < 5 /\
     auth_failures (snd (process_ticket e w id)) <= 5).
Proof.
  split.
  - intros t calls. apply (run_counter_bound (launch t) calls).
    cbn. unfold auth_failures_init, MAX_AUTH_FAILURES. lia.
  - intros e w id. pose proof (gate_counter_lt w) as Hlt.
    unfold MAX_AUTH_FAILURES in Hlt. split; [exact Hlt |].
    destruct (counter_cases e w id) as [-> | [-> | ->]]; lia.
Qed.

(** C5. The failure counter is 0 at launch; every call in which
    [send_email] succeeds leaves it at 0; and for every N < 5, after N
    calls from launch whose sends all fail the counter is N, and one more
    call whose send succeeds leaves it at 0. *)
Theorem C5_counter_reset_on_success :
  (forall t, auth_failures (launch t) = 0) /\
  (forall e w id,
     (0 < count is_send_ok (fst (process_ticket e w id)))%nat ->
     auth_failures (snd (process_ticket e w id)) = 0) /\
  (forall t fails id e,
     (length fails < 5)%nat ->
     all_sends_failed (launch t) fails = true ->
     (0 < count is_send_ok
            (fst (process_ticket e (snd (run (launch t) fails)) id)))%nat ->
     auth_failures (snd (run (launch t) fails)) = Z.of_nat (length fails) /\
     auth_failures (snd (run (launch t) (fails ++ [(id, e)]))) = 0).
Proof.
  split; [reflexivity |]. split.
  - intros e w id H.
    destruct (send_ok_inv e w id H) as (r & _ & _ & _ & _ & _ & ->).
    reflexivity.
  - intros t fails id e Hn Hall Hok. split.
    + rewrite (failed_sends_count (launch t) fails); cbn;
        unfold auth_failures_init, MAX_AUTH_FAILURES; try lia. exact Hall.
    + rewrite run_app. cbn [snd]. rewrite run_cons. cbn [run snd].
      destruct (send_ok_inv e _ id Hok) as (r & _ & _ & _ & _ & _ & ->).
      reflexivity.
Qed.

Lemma C5_counter_reset_on_success_witness :
  auth_failures
    (snd (run (launch sample_table)
            [(42, env_send_fails); (5, env_send_fails)])) = 2 /\
  auth_failures
    (snd (run (launch sample_table)
            ([(42, env_send_fails); (5, env_send_fails)] ++ [(42, env_fine)])))
    = 0.
Proof.
  apply (proj2 (proj2 C5_counter_reset_on_success) sample_table
           [(42, env_send_fails); (5, env_send_fails)] 42 env_fine).
  - cbn. lia.
  - vm_compute. reflexivity.
  - vm_compute. lia.
Defined.

(** ** Rows after the two stamping updates *)

Lemma rejected_lookup (srv : bool) (ts id : Z) (t : table) (r : ticket) :
  t !! id = Some r ->
  snd (PQexec srv ts (UpdateRejected id) t) !! id =
    Some (if srv then with_sent_at (Some ts) (with_status processing r) else r).
Proof.
  intros H. unfold PQexec. destruct srv; cbn; [| exact H].
  rewrite lookup_alter_eq, H. reflexivity.
Qed.

Lemma completed_lookup (srv : bool) (ts id : Z) (t : table) (r : ticket) :
  t !! id = Some r ->
  snd (PQexec srv ts (UpdateCompleted id) t) !! id =
    Some (if srv then with_status completed (with_sent_at (Some ts) r) else r).
Proof.
  intros H. unfold PQexec. destruct srv; cbn; [| exact H].
  rewrite lookup_alter_eq, H. reflexivity.
Qed.

(** The claim update leaves [sent_at] alone. *)
Lemma claimed_sent_at (e : env) (w : world) (id j : Z) :
  sent_at_of (claimed e w id) j = sent_at_of (db w) j.
Proof.
  unfold sent_at_of, claimed. destruct (decide (id = j)) as [-> | Hne].
  - destruct (db w !! j) as [r|] eqn:E.
    + rewrite (claim_lookup j (now e) (db w) r E). cbn.
      destruct (Status_eqb (status r) completed); reflexivity.
    + cbn. rewrite lookup_alter_eq, E. reflexivity.
  - by rewrite claim_lookup_ne.
Qed.

(** ** Calls for a row that is absent or ['completed'] *)

Lemma dead_row_call (e : env) (w : world) (id : Z) :
  db w !! id = None \/ status_of (db w) id = Some completed ->
  db (snd (process_ticket e w id)) = db w /\
  count is_send (fst (process_ticket e w id)) = 0%nat /\
  count is_send_ok (fst (process_ticket e w id)) = 0%nat /\
  count is_perform (fst (process_ticket e w id)) = 0%nat /\
  count is_fetch (fst (process_ticket e w id))
    = (if claim_ok e then 1 else 0)%nat.
Proof.
  intros H. destruct (claimed_rows_dead e w id H) as [Ec Er].
  destruct (claim_ok e) eqn:Hc.
  - destruct (fetch_ok e) eqn:Hf.
    + rewrite (path_no_row e w id Hc Hf Er), Ec. cbn [fst snd db].
      repeat split; count_trace; unfold count; simpl; reflexivity.
    + rewrite (path_fetch_error e w id Hc Hf), Ec. cbn [fst snd db].
      repeat split; count_trace; unfold count; simpl; reflexivity.
  - rewrite (path_claim_error e w id Hc). cbn [fst snd db].
    repeat split; count_trace; unfold count; simpl; reflexivity.
Qed.

(** ** Claims about single calls *)

(** C1, as the code has it.  For a ticket id that is absent or already
    ['completed'] the claim update affects no row, and [process_ticket]
    changes no row and calls neither [send_email] nor the transfer; it
    does not return at the claim step, though: whenever the claim
    statement was executed the select is still submitted (and returns no
    row).  A ticket already in ['processing'], for which the claim update
    affects no row either, is not skipped: the select returns its row and
    the call goes on to validate the address and, if it is valid, to call
    [send_email]. *)
Theorem C1_claim_affecting_no_row :
  (forall e w id,
     db w !! id = None \/ status_of (db w) id = Some completed ->
     rows_affected (UpdateClaim id) (db w) = 0 /\
     db (snd (process_ticket e w id)) = db w /\
     count is_send (fst (process_ticket e w id)) = 0%nat /\
     count is_perform (fst (process_ticket e w id)) = 0%nat /\
     count is_fetch (fst (process_ticket e w id))
       = (if claim_ok e then 1 else 0)%nat)
  /\
  (forall e w id r,
     db w !! id = Some r -> status r = processing ->
     claim_ok e = true -> fetch_ok e = true ->
     rows_affected (UpdateClaim id) (db w) = 0 /\
     count is_fetch (fst (process_ticket e w id)) = 1%nat /\
     (is_valid_email (email r) <> 0 ->
      count is_send (fst (process_ticket e w id)) = 1%nat) /\
     (is_valid_email (email r) = 0 ->
      fst (process_ticket e w id) =
        fetched_events w id
          ++ [EvExec (UpdateRejected id)
                (if reject_ok e then PGRES_COMMAND_OK else PGRES_FATAL_ERROR)])).
Proof.
  split.
  - intros e w id H.
    destruct (dead_row_call e w id H) as (H1 & H2 & _ & H3 & H4).
    split; [| auto].
    cbn. unfold status_of in H. destruct H as [-> | H]; [reflexivity |].
    destruct (db w !! id) as [r|]; [| reflexivity].
    cbn in H. injection H as ->. reflexivity.
  - intros e w id r Hr Hs Hc Hf.
    assert (status r <> completed) as Hnc by congruence.
    destruct (claimed_rows_live e w id r Hr Hnc) as [_ Hrow].
    split.
    { cbn. rewrite Hr, Hs. reflexivity. }
    destruct (Z.eq_dec (is_valid_email (email r)) 0) as [Hv | Hv].
    + rewrite (path_rejected e w id r Hc Hf Hrow Hv). cbn [fst].
      split; [| split; [contradiction | intros _; by destruct (reject_ok e)]].
      count_trace. unfold count. simpl. reflexivity.
    + destruct (Z.eq_dec (snd (send_email e (email r) (subject r) (body r))) 0)
        as [Hz | Hz].
      * rewrite (path_send_failed e w id r Hc Hf Hrow Hv Hz). cbn [fst].
        split; [| split; [intros _ | contradiction]];
          count_trace; unfold count; simpl; reflexivity.
      * rewrite (path_sent e w id r Hc Hf Hrow Hv Hz). cbn [fst].
        split; [| split; [intros _ | contradiction]];
          count_trace; unfold count; simpl; reflexivity.
Qed.

Lemma C1_claim_affecting_no_row_witness :
  (rows_affected (UpdateClaim 7) sample_table = 0 /\
   db (snd (process_ticket env_fine (World sample_table 0) 7)) = sample_table /\
   count is_send (fst (process_ticket env_fine (World sample_table 0) 7)) = 0%nat /\
   count is_perform (fst (process_ticket env_fine (World sample_table 0) 7)) = 0%nat /\
   count is_fetch (fst (process_ticket env_fine (World sample_table 0) 7)) = 1%nat)
  /\
  (rows_affected (UpdateClaim 5) sample_table = 0 /\
   count is_fetch (fst (process_ticket env_fine (World sample_table 0) 5)) = 1%nat /\
   count is_send (fst (process_ticket env_fine (World sample_table 0) 5)) = 1%nat).
Proof.
  split.
  - apply (proj1 C1_claim_affecting_no_row env_fine (World sample_table 0) 7).
    right. vm_compute. reflexivity.
  - destruct (proj2 C1_claim_affecting_no_row env_fine (World sample_table 0) 5
                ticket_5) as (H1 & H2 & H3 & _);
      [vm_compute; reflexivity | reflexivity | reflexivity | reflexivity |].
    split; [exact H1 |]. split; [exact H2 |].
    apply H3. vm_compute. discriminate.
Defined.

(** C1 as stated fails: ticket 5 is already in ['processing'], so the
    claim update affects no row, and yet the select is submitted,
    [send_email] is called and the status changes to ['completed'];
    ticket 7 is already ['completed'], and the select is submitted all the
    same. *)
Lemma C1_counterexample :
  rows_affected (UpdateClaim 5) sample_table = 0 /\
  status_of sample_table 5 = Some processing /\
  count is_fetch (fst (process_ticket env_fine (World sample_table 0) 5)) = 1%nat /\
  count is_send (fst (process_ticket env_fine (World sample_table 0) 5)) = 1%nat /\
  status_of (db (snd (process_ticket env_fine (World sample_table 0) 5))) 5
    = Some completed /\
  rows_affected (UpdateClaim 7) sample_table = 0 /\
  status_of sample_table 7 = Some completed /\
  count is_fetch (fst (process_ticket env_fine (World sample_table 0) 7)) = 1%nat.
Proof. vm_compute. repeat split; reflexivity. Qed.

(** C3, as the code has it.  For every ticket whose select returns its
    row (the ticket is in ['received'] or ['processing'] at entry and the
    claim update and the select are executed) and whose address does not
    match the pattern, [process_ticket] leaves the status ['processing'],
    calls neither [send_email] nor the transfer, and leaves the failure
    counter as the backoff gate left it, so never above its value at
    entry.  [sent_at] is set to [NOW()] when the server executes the
    invalid-address update; the result of that update is cleared unread,
    and when the server refuses it [sent_at] is what it was at entry. *)
Theorem C3_invalid_address_never_sent
  (e : env) (w : world) (id : Z) (r : ticket) :
  db w !! id = Some r -> status r <> completed ->
  claim_ok e = true -> fetch_ok e = true ->
  is_valid_email (email r) = 0 ->
  sent_at_of (db (snd (process_ticket e w id))) id
    = Some (if reject_ok e then Some (now e) else sent_at r) /\
  status_of (db (snd (process_ticket e w id))) id = Some processing /\
  count is_send (fst (process_ticket e w id)) = 0%nat /\
  count is_perform (fst (process_ticket e w id)) = 0%nat /\
  auth_failures (snd (process_ticket e w id)) = gate_counter w /\
  auth_failures (snd (process_ticket e w id)) <= auth_failures w.
Proof.
  intros Hr Hnc Hc Hf Hv.
  destruct (claimed_rows_live e w id r Hr Hnc) as [Hl Hrow].
  rewrite (path_rejected e w id r Hc Hf Hrow Hv). cbn [fst snd db auth_failures].
  unfold sent_at_of, status_of.
  rewrite (rejected_lookup (reject_ok e) (now e) id _ _ Hl).
  cbn [fmap option_fmap option_map].
  repeat split; try (count_trace; unfold count; simpl; reflexivity);
    try (destruct (reject_ok e); reflexivity).
  apply gate_counter_le.
Qed.

Lemma C3_invalid_address_never_sent_witness :
  sent_at_of (db (snd (process_ticket env_fine (World sample_table 3) 9))) 9
    = Some (Some 1000) /\
  status_of (db (snd (process_ticket env_fine (World sample_table 3) 9))) 9
    = Some processing /\
  count is_send (fst (process_ticket env_fine (World sample_table 3) 9)) = 0%nat /\
  count is_perform (fst (process_ticket env_fine (World sample_table 3) 9)) = 0%nat /\
  auth_failures (snd (process_ticket env_fine (World sample_table 3) 9)) = 3 /\
  auth_failures (snd (process_ticket env_fine (World sample_table 3) 9)) <= 3.
Proof.
  apply (C3_invalid_address_never_sent
           env_fine (World sample_table 3) 9 ticket_9).
  - vm_compute. reflexivity.
  - discriminate.
  - reflexivity.
  - reflexivity.
  - vm_compute. reflexivity.
Defined.

(** C3 as stated fails: the address of ticket 9 does not match the
    pattern, the claim update and the select are executed, the
    invalid-address update is submitted and the server refuses it; the
    call returns as after an executed update, and [sent_at] is not
    stamped. *)
Lemma C3_counterexample :
  sample_table !! 9 = Some ticket_9 /\
  is_valid_email (email ticket_9) = 0 /\
  fst (process_ticket env_rejection_refused (World sample_table 0) 9) =
    [EvExec (UpdateClaim 9) PGRES_COMMAND_OK;
     EvExec (SelectClaimed 9) PGRES_TUPLES_OK;
     EvExec (UpdateRejected 9) PGRES_FATAL_ERROR] /\
  sent_at_of
    (db (snd (process_ticket env_rejection_refused (World sample_table 0) 9))) 9
    = Some None.
Proof. vm_compute. repeat split; reflexivity. Qed.

(** C6, as the code has it.  In every call in which [send_email] fails,
    the only write to the table is the claim update made before the send
    (so a ticket that entered in ['received'] has been moved to
    ['processing'], and a ticket that entered in ['processing'] is
    untouched): the status is ['processing'], [sent_at] is what it was at
    entry, no other row differs, and the failure counter is one above the
    value the backoff gate left, that is one above its value at entry if
    that was below 5 and 1 otherwise. *)
Theorem C6_failed_send_writes_nothing_more (e : env) (w : world) (id : Z) :
  (0 < count is_send_failed (fst (process_ticket e w id)))%nat ->
  db (snd (process_ticket e w id)) = exec_table (UpdateClaim id) (now e) (db w) /\
  status_of (db (snd (process_ticket e w id))) id = Some processing /\
  sent_at_of (db (snd (process_ticket e w id))) id = sent_at_of (db w) id /\
  (forall j, j <> id -> db (snd (process_ticket e w id)) !! j = db w !! j) /\
  (status_of (db w) id = Some processing ->
   db (snd (process_ticket e w id)) = db w) /\
  auth_failures (snd (process_ticket e w id)) = gate_counter w + 1 /\
  (auth_failures w < 5 ->
   auth_failures (snd (process_ticket e w id)) = auth_failures w + 1) /\
  (5 <= auth_failures w -> auth_failures (snd (process_ticket e w id)) = 1).
Proof.
  intros H.
  destruct (send_failed_inv e w id H) as (r & Hl & Hs & _ & _ & _ & Hw).
  rewrite Hw. cbn [db auth_failures].
  split; [reflexivity |]. split.
  { unfold status_of. rewrite Hl. cbn. by rewrite Hs. }
  split; [apply claimed_sent_at |]. split.
  { intros j Hj. apply claimed_lookup_ne. congruence. }
  split.
  { intros Hp. apply claim_unchanged. cbn. unfold status_of in Hp.
    destruct (db w !! id) as [r0|]; [| reflexivity].
    cbn in Hp. injection Hp as ->. reflexivity. }
  split; [reflexivity |].
  destruct (gate_events_cases w) as [(Hlt & _ & ->) | (Hge & _ & ->)];
    unfold MAX_AUTH_FAILURES in *; split; intros; lia.
Qed.

Lemma C6_failed_send_writes_nothing_more_witness :
  db (snd (process_ticket env_send_fails (World sample_table 0) 42))
    = exec_table (UpdateClaim 42) 1000 sample_table /\
  status_of (db (snd (process_ticket env_send_fails (World sample_table 0) 42))) 42
    = Some processing /\
  sent_at_of (db (snd (process_ticket env_send_fails (World sample_table 0) 42))) 42
    = sent_at_of sample_table 42 /\
  auth_failures (snd (process_ticket env_send_fails (World sample_table 0) 42)) = 1.
Proof.
  destruct (C6_failed_send_writes_nothing_more
              env_send_fails (World sample_table 0) 42)
    as (H1 & H2 & H3 & _ & _ & _ & H4 & _).
  - vm_compute. lia.
  - split; [exact H1 |]. split; [exact H2 |]. split; [exact H3 |].
    apply H4. cbn. lia.
Defined.

(** C6 as stated fails.  Ticket 42 enters in ['received'] and its send
    fails: the call has written to its row, whose status is no longer what
    it was.  Ticket 5 enters in ['processing'] with the counter at 5 and
    its send fails: the counter ends at 1, not one above its value at
    entry. *)
Lemma C6_counterexample :
  (0 < count is_send_failed
         (fst (process_ticket env_send_fails (World sample_table 0) 42)))%nat /\
  status_of sample_table 42 = Some received /\
  status_of (db (snd (process_ticket env_send_fails (World sample_table 0) 42))) 42
    = Some processing /\
  db (snd (process_ticket env_send_fails (World sample_table 0) 42))
    <> sample_table /\
  (0 < count is_send_failed
         (fst (process_ticket env_send_fails (World sample_table 5) 5)))%nat /\
  auth_failures (snd (process_ticket env_send_fails (World sample_table 5) 5)) = 1 /\
  auth_failures (snd (process_ticket env_send_fails (World sample_table 5) 5))
    <> 5 + 1.
Proof.
  split; [vm_compute; lia |]. split; [vm_compute; reflexivity |].
  split; [vm_compute; reflexivity |]. split.
  { intros E. apply (f_equal (fun t => status_of t 42)) in E.
    vm_compute in E. discriminate. }
  split; [vm_compute; lia |]. split; [vm_compute; reflexivity |].
  vm_compute. discriminate.
Qed.

(** C7, as the code has it.  For every ticket in ['received'] whose address
    matches the pattern, if the claim update and the select are executed
    and [send_email] succeeds, then the failure counter is 0 after the
    call, and: if the completion update is executed, the status is
    ['completed'] and [sent_at] is [NOW()]; if the server refuses the
    completion update (the source only logs that), the status is
    ['processing'] and [sent_at] is what it was. *)
Theorem C7_sent_ticket_completed (e : env) (w : world) (id : Z) (r : ticket) :
  db w !! id = Some r -> status r = received ->
  is_valid_email (email r) <> 0 ->
  claim_ok e = true -> fetch_ok e = true ->
  snd (send_email e (email r) (subject r) (body r)) <> 0 ->
  auth_failures (snd (process_ticket e w id)) = 0 /\
  (complete_ok e = true ->
   status_of (db (snd (process_ticket e w id))) id = Some completed /\
   sent_at_of (db (snd (process_ticket e w id))) id = Some (Some (now e))) /\
  (complete_ok e = false ->
   status_of (db (snd (process_ticket e w id))) id = Some processing /\
   sent_at_of (db (snd (process_ticket e w id))) id = Some (sent_at r)).
Proof.
  intros Hr Hs Hv Hc Hf Hsent.
  assert (status r <> completed) as Hnc by congruence.
  destruct (claimed_rows_live e w id r Hr Hnc) as [Hl Hrow].
  rewrite (path_sent e w id r Hc Hf Hrow Hv Hsent). cbn [snd db auth_failures].
  unfold status_of, sent_at_of.
  rewrite (completed_lookup (complete_ok e) (now e) id _ _ Hl).
  split; [reflexivity |]. split; intros ->; split; reflexivity.
Qed.

Lemma C7_sent_ticket_completed_witness :
  auth_failures (snd (process_ticket env_fine (World sample_table 2) 42)) = 0 /\
  status_of (db (snd (process_ticket env_fine (World sample_table 2) 42))) 42
    = Some completed /\
  sent_at_of (db (snd (process_ticket env_fine (World sample_table 2) 42))) 42
    = Some (Some 1000).
Proof.
  destruct (C7_sent_ticket_completed env_fine (World sample_table 2) 42 ticket_42)
    as (H1 & H2 & _).
  - vm_compute. reflexivity.
  - reflexivity.
  - vm_compute. discriminate.
  - reflexivity.
  - reflexivity.
  - vm_compute. discriminate.
  - split; [exact H1 |]. apply H2. reflexivity.
Defined.

(** C7 as stated fails.  Ticket 42 is in ['received'] with a matching
    address; the claim update affects its row, the select returns it and
    [send_email] returns 1; the server refuses the completion update.
    After the call the status is ['processing'] and [sent_at] is null. *)
Lemma C7_counterexample :
  status_of sample_table 42 = Some received /\
  is_valid_email (email ticket_42) = 1 /\
  rows_affected (UpdateClaim 42) sample_table = 1 /\
  exec_rows (SelectClaimed 42) (claimed env_completion_fails (World sample_table 0) 42)
    = [["a@b.com"; "S"; "B"]]%string /\
  snd (send_email env_completion_fails "a@b.com" "S" "B") = 1 /\
  fst (process_ticket env_completion_fails (World sample_table 0) 42) =
    [EvExec (UpdateClaim 42) PGRES_COMMAND_OK;
     EvExec (SelectClaimed 42) PGRES_TUPLES_OK;
     EvPerform "a@b.com" 0;
     EvSend "a@b.com" "S" "B" 1;
     EvExec (UpdateCompleted 42) PGRES_FATAL_ERROR] /\
  status_of (db (snd (process_ticket env_completion_fails (World sample_table 0) 42))) 42
    = Some processing /\
  sent_at_of (db (snd (process_ticket env_completion_fails (World sample_table 0) 42))) 42
    = Some None.
Proof. vm_compute. repeat split; reflexivity. Qed.

(** C9. When [curl_easy_init] returns [NULL], [send_email] returns 1 and
    performs no transfer; [process_ticket] then leaves exactly the table
    and counter it leaves after a transfer that succeeded; and a ticket
    whose row is returned by the select with a matching address ends, once
    the completion update is executed, in ['completed'] with [sent_at]
    set to [NOW()], with one successful send recorded and no transfer
    performed. *)
Theorem C9_missing_handle_reported_as_sent :
  (forall e to subj text,
     curl_handle e = false -> send_email e to subj text = ([], 1)) /\
  (forall e w id,
     curl_handle e = false ->
     snd (process_ticket e w id) = snd (process_ticket (delivering e) w id) /\
     count is_perform (fst (process_ticket e w id)) = 0%nat) /\
  (forall e w id r,
     curl_handle e = false ->
     db w !! id = Some r -> status r <> completed ->
     is_valid_email (email r) <> 0 ->
     claim_ok e = true -> fetch_ok e = true -> complete_ok e = true ->
     count is_perform (fst (process_ticket e w id)) = 0%nat /\
     count is_send_ok (fst (process_ticket e w id)) = 1%nat /\
     status_of (db (snd (process_ticket e w id))) id = Some completed /\
     sent_at_of (db (snd (process_ticket e w id))) id = Some (Some (now e))).
Proof.
  assert (forall e to subj text,
            curl_handle e = false -> send_email e to subj text = ([], 1)) as Hse.
  { intros e to subj text H. unfold send_email. rewrite H. reflexivity. }
  split; [exact Hse |]. split.
  - intros e w id Hh.
    assert (forall to subj text,
              send_email (delivering e) to subj text = ([EvPerform to 0], 1))
      as Hd by reflexivity.
    destruct (process_ticket_shape e w id); rewrite Eres; cbn [snd].
    + rewrite (path_claim_error (delivering e) w id Hclaim). split; [reflexivity |].
      count_trace. reflexivity.
    + rewrite (path_fetch_error (delivering e) w id Hclaim Hfetch).
      split; [reflexivity |]. count_trace. reflexivity.
    + rewrite (path_no_row (delivering e) w id Hclaim Hfetch Hrows).
      split; [reflexivity |]. count_trace. reflexivity.
    + pose proof (rows_of_lookup _ _ _ Hrow Hst) as R.
      rewrite (path_rejected (delivering e) w id r Hclaim Hfetch R Hvalid).
      split; [reflexivity |]. count_trace. reflexivity.
    + pose proof (rows_of_lookup _ _ _ Hrow Hst) as R.
      rewrite (path_sent (delivering e) w id r Hclaim Hfetch R Hvalid)
        by (rewrite Hd; discriminate).
      split; [reflexivity |]. rewrite Hse by exact Hh. count_trace. reflexivity.
    + rewrite Hse in Hsent by exact Hh. discriminate.
  - intros e w id r Hh Hr Hnc Hv Hc Hf Hco.
    destruct (claimed_rows_live e w id r Hr Hnc) as [Hl Hrow].
    rewrite (path_sent e w id r Hc Hf Hrow Hv)
      by (rewrite Hse by exact Hh; discriminate).
    rewrite Hse by exact Hh. cbn [fst snd db].
    unfold status_of, sent_at_of.
    rewrite (completed_lookup (complete_ok e) (now e) id _ _ Hl), Hco.
    repeat split; count_trace; reflexivity.
Qed.

Lemma C9_missing_handle_reported_as_sent_witness :
  send_email env_no_handle "a@b.com" "S" "B" = ([], 1) /\
  count is_perform (fst (process_ticket env_no_handle (World sample_table 0) 42))
    = 0%nat /\
  count is_send_ok (fst (process_ticket env_no_handle (World sample_table 0) 42))
    = 1%nat /\
  status_of (db (snd (process_ticket env_no_handle (World sample_table 0) 42))) 42
    = Some completed /\
  sent_at_of (db (snd (process_ticket env_no_handle (World sample_table 0) 42))) 42
    = Some (Some 1000).
Proof.
  split.
  - apply (proj1 C9_missing_handle_reported_as_sent). reflexivity.
  - apply (proj2 (proj2 C9_missing_handle_reported_as_sent)
             env_no_handle (World sample_table 0) 42 ticket_42).
    + reflexivity.
    + vm_compute. reflexivity.
    + discriminate.
    + vm_compute. discriminate.
    + reflexivity.
    + reflexivity.
    + reflexivity.
Defined.

(** ** Successful sends along a run *)










(** ** Writes to [sent_at], and rows that stay *)

Lemma sent_at_alter (f : ticket -> ticket) (id j : Z) (t : table) :
  sent_at_of (alter f id t) j =
    if decide (id = j) then (fun r => sent_at (f r)) <$> t !! id
    else sent_at_of t j.
Proof.
  unfold sent_at_of. rewrite lookup_alter. case_decide; [| reflexivity].
  destruct (t !! id); reflexivity.
Qed.

(** A statement that changes [sent_at] of row [j] is one of the two
    stamping updates for [j], and it sets [sent_at] to [NOW()]. *)
Lemma stmt_writes_sent_at (q : stmt) (ts j : Z) (t : table) :
  sent_at_of (exec_table q ts t) j <> sent_at_of t j ->
  (q = UpdateRejected j \/ q = UpdateCompleted j) /\
  sent_at_of (exec_table q ts t) j = Some (Some ts).
Proof.
  destruct q as [| | id | id | id | id]; cbn [exec_table]; try congruence;
    rewrite sent_at_alter; case_decide as Hd; try congruence; subst id;
    unfold sent_at_of; destruct (t !! j) as [r|]; cbn; try congruence.
  - destruct (Status_eqb (status r) received); cbn; congruence.
  - auto.
  - auto.
Qed.

(** A call that changes [sent_at] of row [j] was called for [j], executed
    one of the two stamping updates, and set [sent_at] to [NOW()]. *)
Lemma call_writes_sent_at (e : env) (w : world) (id j : Z) :
  sent_at_of (db (snd (process_ticket e w id))) j <> sent_at_of (db w) j ->
  j = id /\
  sent_at_of (db (snd (process_ticket e w id))) j = Some (Some (now e)) /\
  (In (EvExec (UpdateRejected id) PGRES_COMMAND_OK) (fst (process_ticket e w id))
   \/ In (EvExec (UpdateCompleted id) PGRES_COMMAND_OK)
         (fst (process_ticket e w id))).
Proof.
  destruct (process_ticket_shape e w id); rewrite Eres; cbn [fst snd db];
    rewrite ?claimed_sent_at; try congruence.
  - destruct (reject_ok e) eqn:Hro; cbn [PQexec fst snd PQresultStatus ok_status];
      rewrite ?claimed_sent_at; try congruence.
    intros H. rewrite <- (claimed_sent_at e w id j) in H.
    destruct (stmt_writes_sent_at _ _ _ _ H) as [[E | E] Hs]; [| discriminate].
    injection E as ->. split; [reflexivity |]. split; [exact Hs |].
    left. apply in_or_app. right. left. reflexivity.
  - destruct (complete_ok e) eqn:Hco; cbn [PQexec fst snd PQresultStatus ok_status];
      rewrite ?claimed_sent_at; try congruence.
    intros H. rewrite <- (claimed_sent_at e w id j) in H.
    destruct (stmt_writes_sent_at _ _ _ _ H) as [[E | E] Hs]; [discriminate |].
    injection E as ->. split; [reflexivity |]. split; [exact Hs |].
    right. apply in_or_app. right. apply in_or_app. right. right. left.
    reflexivity.
Qed.

Lemma call_keeps_rows (e : env) (w : world) (id j : Z) :
  is_Some (db (snd (process_ticket e w id)) !! j) <-> is_Some (db w !! j).
Proof.
  destruct (process_ticket_shape e w id); rewrite Eres; cbn [snd db];
    unfold claimed; rewrite ?PQexec_is_Some, ?exec_table_is_Some; reflexivity.
Qed.

Lemma run_keeps_rows (w : world) (calls : list (Z * env)) (j : Z) :
  is_Some (db (snd (run w calls)) !! j) <-> is_Some (db w !! j).
Proof.
  revert w. induction calls as [| [id e] rest IH]; intros w; [reflexivity |].
  rewrite run_cons. cbn [snd]. rewrite IH. apply call_keeps_rows.
Qed.

Lemma run_writes_sent_at (w : world) (calls : list (Z * env)) (j : Z) :
  sent_at_of (db (snd (run w calls))) j <> sent_at_of (db w) j ->
  In (EvExec (UpdateRejected j) PGRES_COMMAND_OK) (fst (run w calls))
  \/ In (EvExec (UpdateCompleted j) PGRES_COMMAND_OK) (fst (run w calls)).
Proof.
  revert w. induction calls as [| [id e] rest IH]; intros w H.
  - cbn in H. congruence.
  - rewrite run_cons in *. cbn [fst snd] in *.
    destruct (decide (sent_at_of (db (snd (process_ticket e w id))) j
                      = sent_at_of (db w) j)) as [Heq | Hne].
    + rewrite <- Heq in H. destruct (IH _ H) as [Hi | Hi];
        [left | right]; apply in_or_app; right; exact Hi.
    + destruct (call_writes_sent_at e w id j Hne) as (-> & _ & [Hi | Hi]);
        [left | right]; apply in_or_app; left; exact Hi.
Qed.

(** C8. Of the statements the program submits, only the invalid-address
    update and the completion update change a row's [sent_at], and both
    set it to [NOW()]; a call of [process_ticket] that changes [sent_at] of
    a row was made for that row and executed one of these two updates; the
    same holds along every sequence of calls; and no statement, call or
    sequence of calls removes a row (or adds one). *)
Theorem C8_sent_at_writers_and_no_delete :
  (forall q ts j (t : table),
     sent_at_of (exec_table q ts t) j <> sent_at_of t j ->
     (q = UpdateRejected j \/ q = UpdateCompleted j) /\
     sent_at_of (exec_table q ts t) j = Some (Some ts)) /\
  (forall e w id j,
     sent_at_of (db (snd (process_ticket e w id))) j <> sent_at_of (db w) j ->
     j = id /\
     sent_at_of (db (snd (process_ticket e w id))) j = Some (Some (now e)) /\
     (In (EvExec (UpdateRejected id) PGRES_COMMAND_OK)
         (fst (process_ticket e w id))
      \/ In (EvExec (UpdateCompleted id) PGRES_COMMAND_OK)
            (fst (process_ticket e w id)))) /\
  (forall w calls j,
     sent_at_of (db (snd (run w calls))) j <> sent_at_of (db w) j ->
     In (EvExec (UpdateRejected j) PGRES_COMMAND_OK) (fst (run w calls))
     \/ In (EvExec (UpdateCompleted j) PGRES_COMMAND_OK) (fst (run w calls))) /\
  (forall srv q ts j (t : table),
     is_Some (snd (PQexec srv ts q t) !! j) <-> is_Some (t !! j)) /\
  (forall w calls j,
     is_Some (db (snd (run w calls)) !! j) <-> is_Some (db w !! j)).
Proof.
  split; [exact stmt_writes_sent_at |].
  split; [exact call_writes_sent_at |].
  split; [exact run_writes_sent_at |].
  split; [intros; apply PQexec_is_Some | exact run_keeps_rows].
Qed.

Lemma C8_sent_at_writers_and_no_delete_witness :
  (In (EvExec (UpdateRejected 9) PGRES_COMMAND_OK)
      (fst (run sample_world [(42, env_send_fails); (9, env_fine)]))
   \/ In (EvExec (UpdateCompleted 9) PGRES_COMMAND_OK)
         (fst (run sample_world [(42, env_send_fails); (9, env_fine)]))) /\
  (is_Some (db (snd (run sample_world retry_calls)) !! 7)
   <-> is_Some (db sample_world !! 7)).
Proof.
  split.
  - apply (proj1 (proj2 (proj2 C8_sent_at_writers_and_no_delete))
             sample_world [(42, env_send_fails); (9, env_fine)] 9).
    vm_compute. discriminate.
  - apply (proj2 (proj2 (proj2 (proj2 C8_sent_at_writers_and_no_delete)))).
Defined.

(** * Further properties of the code *)

(** ** The matcher against what a pattern matches *)

Lemma nullable_lang (r : Regex.re) :
  Regex.nullable r = true <-> re_lang r [].
Proof.
  induction r as [| | p | r IHr s IHs | r IHr s IHs | r IHr]; simpl.
  - split; [discriminate | inversion 1].
  - split; [constructor | reflexivity].
  - split; [discriminate | inversion 1].
  - rewrite andb_true_iff, IHr, IHs. split.
    + intros [H1 H2]. apply (LSeq r s [] [] H1 H2).
    + inversion 1 as [| | r' s' u v Hu Hv E1 E2 | | | |]; subst.
      apply app_eq_nil in E2 as [-> ->]. auto.
  - rewrite orb_true_iff, IHr, IHs. split.
    + intros [H | H]; [apply LAltL | apply LAltR]; exact H.
    + inversion 1; subst; auto.
  - split; [constructor | reflexivity].
Qed.

Lemma deriv_sound (c : ascii) (r : Regex.re) (s : list ascii) :
  re_lang (Regex.deriv c r) s -> re_lang r (c :: s).
Proof.
  revert s. induction r as [| | p | r IHr q IHq | r IHr q IHq | r IHr];
    simpl; intros s H.
  - inversion H.
  - inversion H.
  - destruct (p c) eqn:E; inversion H; subst. apply LCls. exact E.
  - destruct (Regex.nullable r) eqn:N.
    + inversion H as [| | | r' s' u Hu | r' s' u Hu | |]; subst.
      * inversion Hu as [| | r' s' u1 v1 H1 H2 | | | |]; subst.
        apply (LSeq r q (c :: u1) v1); [apply IHr; exact H1 | exact H2].
      * apply (LSeq r q [] (c :: s)); [by apply nullable_lang | by apply IHq].
    + inversion H as [| | r' s' u1 v1 H1 H2 | | | |]; subst.
      apply (LSeq r q (c :: u1) v1); [apply IHr; exact H1 | exact H2].
  - inversion H; subst; [apply LAltL; auto | apply LAltR; auto].
  - inversion H as [| | r' s' u1 v1 H1 H2 | | | |]; subst.
    apply (LStarApp r (c :: u1) v1); [apply IHr; exact H1 | exact H2].
Qed.

Lemma deriv_complete (c : ascii) (r : Regex.re) (s : list ascii) :
  re_lang r (c :: s) -> re_lang (Regex.deriv c r) s.
Proof.
  intros H. remember (c :: s) as cs eqn:E. revert c s E.
  induction H as [| p a Hp | r q u v Hu IHu Hv IHv | r q u Hu IHu
                  | r q u Hu IHu | r | r u v Hu IHu Hv IHv];
    intros c s E; simpl.
  - discriminate.
  - injection E as -> <-. rewrite Hp. constructor.
  - destruct u as [| a u'].
    + simpl in E. subst v.
      assert (Regex.nullable r = true) as -> by (by apply nullable_lang).
      apply LAltR. by apply IHv.
    + simpl in E. injection E as -> <-.
      destruct (Regex.nullable r).
      * apply LAltL. apply LSeq; [by apply IHu | exact Hv].
      * apply LSeq; [by apply IHu | exact Hv].
  - apply LAltL. by apply IHu.
  - apply LAltR. by apply IHu.
  - discriminate.
  - destruct u as [| a u'].
    + simpl in E. subst v. by apply (IHv c s).
    + simpl in E. injection E as -> <-.
      apply LSeq; [by apply IHu | exact Hv].
Qed.

(** The matcher decides whole-subject matching. *)
Lemma anchored_lang (r : Regex.re) (s : list ascii) :
  Regex.anchored r s = true <-> re_lang r s.
Proof.
  revert r. induction s as [| c s IH]; intros r; simpl.
  - apply nullable_lang.
  - rewrite IH. split; [apply deriv_sound | apply deriv_complete].
Qed.

Lemma lang_star_cls (p : ascii -> bool) (s : list ascii) :
  re_lang (Regex.Star (Regex.Cls p)) s <-> forallb p s = true.
Proof.
  split.
  - intros H. remember (Regex.Star (Regex.Cls p)) as r eqn:E.
    induction H as [| | | | | r' | r' u v Hu _ Hv IHv]; try discriminate.
    + reflexivity.
    + injection E as ->. inversion Hu; subst. simpl.
      rewrite IHv by reflexivity. by rewrite andb_true_r.
  - induction s as [| c s IH]; simpl; intros H.
    + constructor.
    + apply andb_true_iff in H as [Hc Hs].
      apply (LStarApp (Regex.Cls p) [c] s); [by apply LCls | by apply IH].
Qed.

Lemma lang_plus_cls (p : ascii -> bool) (s : list ascii) :
  re_lang (Regex.plus (Regex.Cls p)) s <-> s <> [] /\ forallb p s = true.
Proof.
  unfold Regex.plus. split.
  - inversion 1 as [| | r q u v Hu Hv | | | |]; subst.
    inversion Hu; subst. apply lang_star_cls in Hv. simpl.
    split; [discriminate |]. by rewrite Hv, andb_true_r.
  - intros [Hn H]. destruct s as [| c s]; [contradiction |].
    simpl in H. apply andb_true_iff in H as [Hc Hs].
    apply (LSeq (Regex.Cls p) _ [c] s); [by apply LCls | by apply lang_star_cls].
Qed.

Lemma lang_lit_seq (a : ascii) (r : Regex.re) (s : list ascii) :
  re_lang (Regex.Seq (Regex.Cls (Regex.lit a)) r) s <->
  exists v, s = a :: v /\ re_lang r v.
Proof.
  split.
  - inversion 1 as [| | r1 q u v Hu Hv | | | |]; subst.
    inversion Hu as [| p c Hc | | | | |]; subst.
    unfold Regex.lit in Hc. apply Ascii.eqb_eq in Hc. subst c.
    exists v. auto.
  - intros (v & -> & Hv).
    apply (LSeq _ r [a] v); [| exact Hv].
    apply LCls. unfold Regex.lit. apply Ascii.eqb_refl.
Qed.

(** What the address pattern matches. *)
Lemma email_pattern_lang (s : list ascii) :
  re_lang email_pattern s <->
  exists l d t,
    s = address_parts l d t /\
    l <> [] /\ forallb local_class l = true /\
    d <> [] /\ forallb domain_class d = true /\
    (2 <= length t)%nat /\ forallb alpha t = true.
Proof.
  unfold email_pattern, address_parts. split.
  - inversion 1 as [| | r1 q1 l v1 Hl H1 | | | |]; subst.
    apply lang_plus_cls in Hl as [Hl1 Hl2].
    apply lang_lit_seq in H1 as (v2 & -> & H2).
    inversion H2 as [| | r2 q2 d v3 Hd H3 | | | |]; subst.
    apply lang_plus_cls in Hd as [Hd1 Hd2].
    apply lang_lit_seq in H3 as (t & -> & H4).
    exists l, d, t. repeat (split; [assumption || reflexivity |]).
    inversion H4 as [| | r3 q3 t1 v4 Ht1 H5 | | | |]; subst.
    inversion Ht1 as [| p c1 Hc1 | | | | |]; subst.
    inversion H5 as [| | r4 q4 t2 t3 Ht2 Ht3 | | | |]; subst.
    inversion Ht2 as [| p c2 Hc2 | | | | |]; subst.
    apply lang_star_cls in Ht3. simpl.
    split; [lia |]. by rewrite Hc1, Hc2, Ht3.
  - intros (l & d & t & -> & Hl1 & Hl2 & Hd1 & Hd2 & Ht1 & Ht2).
    apply LSeq; [by apply lang_plus_cls |].
    apply lang_lit_seq. eexists; split; [reflexivity |].
    apply LSeq; [by apply lang_plus_cls |].
    apply lang_lit_seq. eexists; split; [reflexivity |].
    destruct t as [| c1 [| c2 t]]; simpl in Ht1; try lia.
    simpl in Ht2. apply andb_true_iff in Ht2 as [Hc1 Ht2].
    apply andb_true_iff in Ht2 as [Hc2 Ht2].
    apply (LSeq _ _ [c1] (c2 :: t)); [by apply LCls |].
    apply (LSeq _ _ [c2] t); [by apply LCls | by apply lang_star_cls].
Qed.

(** ** [is_valid_email] *)

Lemma is_valid_email_lang (e : string) :
  is_valid_email e = 1 <-> re_lang email_pattern (list_ascii_of_string e).
Proof.
  rewrite <- anchored_lang. unfold is_valid_email, regexec.
  destruct (Regex.anchored email_pattern (list_ascii_of_string e)); simpl;
    split; congruence.
Qed.



Lemma domain_class_local (c : ascii) :
  domain_class c = true -> local_class c = true.
Proof.
  unfold domain_class, local_class.
  destruct (alnum c), (Regex.lit "." c), (Regex.lit "-" c); simpl; auto;
    try discriminate; intros _; rewrite ?orb_true_r; reflexivity.
Qed.

Lemma alpha_local (c : ascii) : alpha c = true -> local_class c = true.
Proof. unfold local_class, alnum. intros ->. reflexivity. Qed.

Lemma length_list_ascii (s : string) :
  length (list_ascii_of_string s) = String.length s.
Proof. induction s as [| c s IH]; simpl; congruence. Qed.

Lemma count_occ_class (p : ascii -> bool) (a : ascii) (l : list ascii) :
  p a = false -> forallb p l = true -> count_occ ascii_dec l a = 0%nat.
Proof.
  intros Ha. induction l as [| c l IH]; simpl; [reflexivity |].
  rewrite andb_true_iff. intros [Hc Hl].
  destruct (ascii_dec c a) as [-> | _]; [congruence | auto].
Qed.

(** The characters of an accepted address. *)
Lemma valid_address_forallb (e : string) :
  is_valid_email e = 1 ->
  forallb (fun c => local_class c || Regex.lit "@" c) (list_ascii_of_string e)
    = true.
Proof.
  intros H. apply is_valid_email_lang, email_pattern_lang in H
    as (l & d & t & -> & _ & Hl & _ & Hd & _ & Ht).
  rewrite forallb_forall in Hl, Hd, Ht. apply forallb_forall. intros c Hc.
  unfold address_parts in Hc. apply in_app_or in Hc as [Hc | [<- | Hc]].
  - by rewrite (Hl c Hc).
  - reflexivity.
  - apply in_app_or in Hc as [Hc | [<- | Hc]].
    + by rewrite (domain_class_local c (Hd c Hc)).
    + reflexivity.
    + by rewrite (alpha_local c (Ht c Hc)).
Qed.

(** X2. An address that [is_valid_email] accepts is at least six
    characters long, contains exactly one [@], and consists of letters,
    digits and [._%+-@] only: in particular it contains no carriage
    return, line feed, space or angle bracket. *)
Theorem X2_accepted_address_characters (e : string) :
  is_valid_email e = 1 ->
  (6 <= String.length e)%nat /\
  count_occ ascii_dec (list_ascii_of_string e) "@"%char = 1%nat /\
  Forall (fun c => local_class c = true \/ c = "@"%char)
         (list_ascii_of_string e) /\
  Forall (fun c => c <> ascii_of_nat 13 /\ c <> ascii_of_nat 10 /\
                   c <> " "%char /\ c <> "<"%char /\ c <> ">"%char)
         (list_ascii_of_string e).
Proof.
  intros H. pose proof (valid_address_forallb e H) as Hall.
  apply is_valid_email_lang, email_pattern_lang in H
    as (l & d & t & E & Hl0 & Hl & Hd0 & Hd & Ht0 & Ht).
  split.
  { rewrite <- length_list_ascii, E. unfold address_parts.
    rewrite length_app. simpl. rewrite length_app. simpl.
    destruct l; [contradiction |]. destruct d; [contradiction |]. simpl. lia. }
  split.
  { rewrite E. unfold address_parts.
    rewrite count_occ_app. simpl. rewrite count_occ_app. simpl.
    rewrite (count_occ_class local_class "@" l), (count_occ_class domain_class "@" d),
      (count_occ_class alpha "@" t) by (assumption || reflexivity).
    reflexivity. }
  rewrite forallb_forall in Hall. split; apply Forall_forall; intros c Hc;
    apply list_elem_of_In, Hall in Hc.
  - apply orb_true_iff in Hc as [Hc | Hc]; [by left | right].
    unfold Regex.lit in Hc. apply Ascii.eqb_eq in Hc. congruence.
  - repeat split; intros ->; vm_compute in Hc; discriminate.
Qed.

Lemma X2_accepted_address_characters_witness :
  (6 <= String.length "a@b.com")%nat /\
  count_occ ascii_dec (list_ascii_of_string "a@b.com") "@"%char = 1%nat.
Proof.
  destruct (X2_accepted_address_characters "a@b.com") as (H1 & H2 & _).
  - vm_compute. reflexivity.
  - split; [exact H1 | exact H2].
Defined.

(** ** [load_env_variables] *)

(** Follow the checks in their order: [fin] runs where all nine variables
    are set; the nine goals where one is unset are left. *)
Ltac if_set environ k tac :=
  destruct (environ !! k%string) eqn:?;
  cbn [find is_unset fst snd negb andb forallb]; [tac |].

Ltac each_variable environ fin :=
  if_set environ "POSTGRES_HOST" ltac:(
  if_set environ "POSTGRES_PORT" ltac:(
  if_set environ "POSTGRES_DB" ltac:(
  if_set environ "POSTGRES_USER" ltac:(
  if_set environ "POSTGRES_PASSWORD" ltac:(
  if_set environ "GMAIL_EMAIL" ltac:(
  if_set environ "GMAIL_APP_PASSWORD" ltac:(
  if_set environ "SMTPS_SERVER" ltac:(
  if_set environ "SMTPS_PORT" ltac:(fin))))))))).

(** X3. [load_env_variables] goes through exactly when the nine required
    variables are all set; a variable set to the empty string counts as
    set.  The configuration then holds their values unchanged, and the
    lines written are those of the configuration. *)
Theorem X3_load_env_requires_nine (environ : gmap string string) :
  ((exists c out, load_env_variables environ = inr (c, out)) <->
   forallb (fun v => negb (is_unset environ v)) required_variables = true) /\
  (forall c out,
     load_env_variables environ = inr (c, out) ->
     environ !! "POSTGRES_HOST"%string = Some (DB_HOST c) /\
     environ !! "POSTGRES_PORT"%string = Some (DB_PORT c) /\
     environ !! "POSTGRES_DB"%string = Some (DB_NAME c) /\
     environ !! "POSTGRES_USER"%string = Some (DB_USER c) /\
     environ !! "POSTGRES_PASSWORD"%string = Some (DB_PASSWORD c) /\
     environ !! "GMAIL_EMAIL"%string = Some (GMAIL_EMAIL c) /\
     environ !! "GMAIL_APP_PASSWORD"%string = Some (GMAIL_PASSWORD c) /\
     environ !! "SMTPS_SERVER"%string = Some (SMTPS_SERVER c) /\
     environ !! "SMTPS_PORT"%string = Some (SMTPS_PORT c) /\
     out = loaded_lines c).
Proof.
  split.
  - unfold load_env_variables, required_variables, is_unset.
    cbn [forallb fst negb andb].
    each_variable environ ltac:(split; [intros _; reflexivity | intros _; eauto]);
      (split; [intros (c & out & H); discriminate | discriminate]).
  - intros c out. unfold load_env_variables.
    each_variable environ ltac:(intros [= <- <-]; cbn; repeat split);
      discriminate.
Qed.

Lemma X3_load_env_requires_nine_witness :
  exists c out, load_env_variables sample_environ = inr (c, out).
Proof.
  apply (proj2 (proj1 (X3_load_env_requires_nine sample_environ))).
  vm_compute. reflexivity.
Defined.

(** X4. When a required variable is not set, [load_env_variables] exits
    with status 1 after one line on [stderr], which is the line of the
    first unset variable in the order POSTGRES_HOST, POSTGRES_PORT,
    POSTGRES_DB, POSTGRES_USER, POSTGRES_PASSWORD, GMAIL_EMAIL,
    GMAIL_APP_PASSWORD, SMTPS_SERVER, SMTPS_PORT; for the last two the
    line names SMTP_SERVER and SMTP_PORT, not the variables that were
    looked up. *)
Theorem X4_load_env_first_missing
  (environ : gmap string string) (v : string * string) :
  find (is_unset environ) required_variables = Some v ->
  load_env_variables environ = inl (1, missing_variable (snd v)).
Proof.
  unfold load_env_variables, required_variables, is_unset.
  cbn [find fst].
  each_variable environ ltac:(discriminate); intros [= <-]; reflexivity.
Qed.

Lemma X4_load_env_first_missing_witness :
  load_env_variables (delete "SMTPS_SERVER"%string sample_environ)
  = inl (1, missing_variable "SMTP_SERVER").
Proof.
  apply (X4_load_env_first_missing _ ("SMTPS_SERVER", "SMTP_SERVER")%string).
  vm_compute. reflexivity.
Defined.

(** X5. The sender name of a loaded configuration is never empty: it is
    the value of SENDER_NAME when that is set and not empty, and
    ["OpenFarm"] when it is unset or empty. *)
Theorem X5_sender_name_default
  (environ : gmap string string) (c : config) (out : list string) :
  load_env_variables environ = inr (c, out) ->
  SENDER_NAME c <> EmptyString /\
  (environ !! "SENDER_NAME"%string = None \/
   environ !! "SENDER_NAME"%string = Some EmptyString ->
   SENDER_NAME c = "OpenFarm"%string) /\
  (forall s, environ !! "SENDER_NAME"%string = Some s -> s <> EmptyString ->
             SENDER_NAME c = s).
Proof.
  unfold load_env_variables.
  each_variable environ ltac:(idtac); [| discriminate..].
  intros [= <- _]. cbn [SENDER_NAME].
  destruct (environ !! "SENDER_NAME"%string) as [name |].
  - destruct name as [| a name]; cbn.
    + split; [discriminate |]. split; [reflexivity |].
      intros s' [= <-] H. contradiction.
    + split; [discriminate |]. split.
      * intros [H | H]; discriminate.
      * intros s' [= <-] _. reflexivity.
  - split; [discriminate |]. split; [reflexivity | discriminate].
Qed.

Lemma X5_sender_name_default_witness :
  exists c out,
    load_env_variables sample_environ = inr (c, out) /\
    SENDER_NAME c = "OpenFarm"%string.
Proof.
  destruct (load_env_variables sample_environ) as [[st msg] | [c out]] eqn:H.
  - vm_compute in H. discriminate.
  - exists c, out. split; [reflexivity |].
    apply (proj1 (proj2 (X5_sender_name_default sample_environ c out H))).
    right. vm_compute. reflexivity.
Defined.

(** X6. The lines [load_env_variables] writes do not depend on the two
    passwords: with other values for POSTGRES_PASSWORD and
    GMAIL_APP_PASSWORD it writes the same lines. *)
Theorem X6_passwords_not_written
  (environ : gmap string string) (p q : string) (c : config)
  (out : list string) :
  load_env_variables environ = inr (c, out) ->
  exists c',
    load_env_variables
      (<["POSTGRES_PASSWORD"%string := p]>
         (<["GMAIL_APP_PASSWORD"%string := q]> environ)) = inr (c', out).
Proof.
  unfold load_env_variables.
  rewrite !lookup_insert_eq.
  rewrite !(lookup_insert_ne _ "POSTGRES_PASSWORD"%string) by done.
  rewrite !lookup_insert_eq.
  rewrite !(lookup_insert_ne _ "GMAIL_APP_PASSWORD"%string) by done.
  each_variable environ ltac:(intros [= <- <-]; eexists; reflexivity);
    discriminate.
Qed.

Lemma X6_passwords_not_written_witness :
  exists c out,
    load_env_variables sample_environ = inr (c, out) /\
    exists c',
      load_env_variables
        (<["POSTGRES_PASSWORD"%string := "other"%string]>
           (<["GMAIL_APP_PASSWORD"%string := "secret"%string]> sample_environ))
      = inr (c', out).
Proof.
  destruct (load_env_variables sample_environ) as [[st msg] | [c out]] eqn:H.
  - vm_compute in H. discriminate.
  - exists c, out. split; [reflexivity |].
    apply (X6_passwords_not_written sample_environ _ _ c out H).
Defined.

(** ** Lengths and prefixes of C strings *)

Lemma append_cons (c : ascii) (a b : string) :
  (String c a ++ b)%string = String c (a ++ b)%string.
Proof. reflexivity. Qed.

Lemma append_nil (b : string) : (EmptyString ++ b)%string = b.
Proof. reflexivity. Qed.

Lemma append_assoc (a b c : string) :
  ((a ++ b) ++ c)%string = (a ++ b ++ c)%string.
Proof.
  induction a as [| x a IH]; rewrite ?append_nil, ?append_cons; congruence.
Qed.

Lemma length_append (a b : string) :
  String.length (a ++ b) = (String.length a + String.length b)%nat.
Proof.
  induction a as [| c a IH]; rewrite ?append_nil, ?append_cons; simpl;
    congruence.
Qed.

Lemma list_ascii_append (a b : string) :
  list_ascii_of_string (a ++ b)
  = list_ascii_of_string a ++ list_ascii_of_string b.
Proof.
  induction a as [| c a IH]; rewrite ?append_nil, ?append_cons; simpl;
    congruence.
Qed.

Lemma substring_0_length (n : nat) (s : string) :
  String.length (substring 0 n s) = Nat.min n (String.length s).
Proof.
  revert n. induction s as [| c s IH]; intros [| n]; simpl; auto.
Qed.

Lemma substring_0_all (n : nat) (s : string) :
  (String.length s <= n)%nat -> substring 0 n s = s.
Proof.
  revert n. induction s as [| c s IH]; intros [| n]; simpl; intros H;
    try reflexivity; try lia.
  rewrite IH by lia. reflexivity.
Qed.

Lemma substring_0_prefix (n : nat) (s : string) :
  exists rest, s = (substring 0 n s ++ rest)%string.
Proof.
  revert n. induction s as [| c s IH]; intros [| n]; simpl.
  - by exists EmptyString.
  - by exists EmptyString.
  - by exists (String c s).
  - destruct (IH n) as [rest E]. exists rest.
    rewrite append_cons. congruence.
Qed.

Lemma snprintf_length (size : nat) (s : string) :
  (0 < size)%nat -> (String.length (snprintf size s) < size)%nat.
Proof. intros H. unfold snprintf. rewrite substring_0_length. lia. Qed.

Lemma snprintf_fits (size : nat) (s : string) :
  (String.length s < size)%nat -> snprintf size s = s.
Proof. intros H. unfold snprintf. apply substring_0_all. lia. Qed.

Lemma snprintf_prefix (size : nat) (s : string) :
  exists rest, s = (snprintf size s ++ rest)%string.
Proof. apply substring_0_prefix. Qed.


(** ** [connect_to_db] *)

Lemma conninfo_length (c : config) :
  String.length (conninfo c) =
    (35 + String.length (DB_HOST c) + String.length (DB_PORT c)
     + String.length (DB_NAME c) + String.length (DB_USER c)
     + String.length (DB_PASSWORD c))%nat.
Proof. unfold conninfo. rewrite !length_append. simpl. lia. Qed.

(** X7. The connection string is 35 characters longer than the host,
    port, database name, user and password together, and [sprintf] stays
    inside [char conninfo[256]] exactly when these five total at most 220
    characters.  Nothing bounds them: there are environments that
    [load_env_variables] accepts and whose connection string does not
    fit. *)
Theorem X7_conninfo_buffer :
  (forall c,
     String.length (conninfo c) =
       (35 + String.length (DB_HOST c) + String.length (DB_PORT c)
        + String.length (DB_NAME c) + String.length (DB_USER c)
        + String.length (DB_PASSWORD c))%nat) /\
  (forall c,
     sprintf_fits 256 (conninfo c) = true <->
     (String.length (DB_HOST c) + String.length (DB_PORT c)
      + String.length (DB_NAME c) + String.length (DB_USER c)
      + String.length (DB_PASSWORD c) <= 220)%nat) /\
  (exists environ c out,
     load_env_variables environ = inr (c, out) /\
     sprintf_fits 256 (conninfo c) = false).
Proof.
  split; [exact conninfo_length |]. split.
  - intros c. unfold sprintf_fits. rewrite Nat.ltb_lt, conninfo_length. lia.
  - destruct (load_env_variables long_environ) as [[st msg] | [c out]] eqn:H.
    + vm_compute in H. discriminate.
    + exists long_environ, c, out. split; [exact H |].
      vm_compute in H. injection H as <- _. vm_compute. reflexivity.
Qed.

Lemma X7_conninfo_buffer_witness :
  sprintf_fits 256 (conninfo sample_config) = true.
Proof.
  apply (proj2 (proj1 (proj2 X7_conninfo_buffer) sample_config)).
  vm_compute. lia.
Defined.

(** ** The message [send_email] builds *)

Lemma CRLF_length : String.length CRLF = 2%nat.
Proof. reflexivity. Qed.

Lemma payload_length (c : config) (to subj text : string) :
  (String.length (payload c to subj text) < MAX_EMAIL_SIZE)%nat.
Proof. apply snprintf_length. unfold MAX_EMAIL_SIZE. lia. Qed.

(** X8. Whatever the configuration, recipient, subject and text, the URL,
    the three headers and the payload fit their buffers with the
    terminating NUL: fewer than 100, 256, 256, 512 and 8192 characters. *)
Theorem X8_send_email_buffers (c : config) (to subj text : string) :
  Z.of_nat (String.length (smtp_url c)) < 100 /\
  Z.of_nat (String.length (from_header c)) < 256 /\
  Z.of_nat (String.length (to_header to)) < 256 /\
  Z.of_nat (String.length (subject_header subj)) < 512 /\
  Z.of_nat (String.length (payload c to subj text)) < 8192.
Proof.
  pose proof (payload_length c to subj text) as Hp.
  unfold MAX_EMAIL_SIZE in Hp.
  unfold smtp_url, from_header, to_header, subject_header.
  repeat split; try lia;
    match goal with
    | |- Z.of_nat (String.length (snprintf ?n ?s)) < _ =>
        pose proof (snprintf_length n s); lia
    end.
Qed.

Lemma message_text_length (c : config) (to subj text : string) :
  String.length (message_text c to subj text) =
    (String.length (from_header c) + String.length (to_header to)
     + String.length (subject_header subj) + String.length text + 51)%nat.
Proof.
  unfold message_text. rewrite !length_append, !CRLF_length.
  cbn [String.length]. lia.
Qed.

(** X9. When the sender name and address total at most 246 characters,
    the recipient at most 249, the subject at most 502, and all of them
    together with the text at most 8116, the payload is the complete
    message: the From, To, Subject and Content-Type lines, an empty line,
    and the text, each ended by CR LF. *)
Theorem X9_payload_complete (c : config) (to subj text : string) :
  (String.length (SENDER_NAME c) + String.length (GMAIL_EMAIL c) <= 246)%nat ->
  (String.length to <= 249)%nat ->
  (String.length subj <= 502)%nat ->
  Z.of_nat (String.length (SENDER_NAME c) + String.length (GMAIL_EMAIL c)
            + String.length to + String.length subj + String.length text)
    <= 8116 ->
  payload c to subj text =
    ("From: " ++ SENDER_NAME c ++ " <" ++ GMAIL_EMAIL c ++ ">" ++ CRLF
     ++ "To: <" ++ to ++ ">" ++ CRLF
     ++ "Subject: " ++ subj ++ CRLF
     ++ "Content-Type: text/plain; charset=UTF-8" ++ CRLF
     ++ CRLF
     ++ text ++ CRLF)%string.
Proof.
  intros Hf Ht Hs Hall.
  assert (from_header c
          = ("From: " ++ SENDER_NAME c ++ " <" ++ GMAIL_EMAIL c ++ ">")%string)
    as Ef.
  { apply snprintf_fits. rewrite !length_append. simpl. lia. }
  assert (to_header to = ("To: <" ++ to ++ ">")%string) as Et.
  { apply snprintf_fits. rewrite !length_append. simpl. lia. }
  assert (subject_header subj = ("Subject: " ++ subj)%string) as Es.
  { apply snprintf_fits. rewrite !length_append. simpl. lia. }
  unfold payload. rewrite snprintf_fits.
  - unfold message_text. rewrite Ef, Et, Es.
    rewrite !append_assoc. reflexivity.
  - rewrite message_text_length, Ef, Et, Es, !length_append.
    unfold MAX_EMAIL_SIZE. cbn [String.length]. lia.
Qed.

Lemma X9_payload_complete_witness :
  payload sample_config "a@b.com" "S" "B" =
    ("From: OpenFarm <me@x.org>" ++ CRLF ++ "To: <a@b.com>" ++ CRLF
     ++ "Subject: S" ++ CRLF
     ++ "Content-Type: text/plain; charset=UTF-8" ++ CRLF ++ CRLF
     ++ "B" ++ CRLF)%string.
Proof.
  apply (X9_payload_complete sample_config "a@b.com" "S" "B");
    simpl; lia.
Defined.



Lemma prefix_chars (P : ascii -> Prop) (a rest : string) :
  Forall P (list_ascii_of_string (a ++ rest)) ->
  Forall P (list_ascii_of_string a).
Proof.
  rewrite list_ascii_append, Forall_app. tauto.
Qed.

(** X11. For a recipient that [is_valid_email] accepts, the To header
    contains no carriage return and no line feed, whatever its length;
    and when the recipient has at most 249 characters the header is the
    recipient between ["To: <"] and [">"]. *)
Theorem X11_to_header_of_accepted_address (to : string) :
  is_valid_email to = 1 ->
  Forall (fun c => c <> ascii_of_nat 13 /\ c <> ascii_of_nat 10)
         (list_ascii_of_string (to_header to)) /\
  ((String.length to <= 249)%nat ->
   to_header to = ("To: <" ++ to ++ ">")%string).
Proof.
  intros H. split.
  - unfold to_header.
    destruct (snprintf_prefix 256 ("To: <" ++ to ++ ">")%string) as [rest E].
    apply (prefix_chars _ _ rest). rewrite <- E.
    rewrite !list_ascii_append, !Forall_app.
    split; [| split].
    + simpl. repeat constructor; discriminate.
    + pose proof (valid_address_forallb to H) as Hall.
      rewrite forallb_forall in Hall. apply Forall_forall. intros c Hc.
      apply list_elem_of_In, Hall in Hc.
      split; intros ->; vm_compute in Hc; discriminate.
    + simpl. repeat constructor; discriminate.
  - intros L. apply snprintf_fits. rewrite !length_append. simpl. lia.
Qed.

Lemma X11_to_header_of_accepted_address_witness :
  to_header "a@b.com" = "To: <a@b.com>"%string.
Proof.
  destruct (X11_to_header_of_accepted_address "a@b.com") as [_ H].
  - vm_compute. reflexivity.
  - apply H. simpl. lia.
Defined.

(** ** [atoi] *)

Lemma pretty_N_char_digit (d : N) :
  (d < 10)%N ->
  isdigit (pretty_N_char d) = true /\
  digit_value (pretty_N_char d) = Z.of_N d.
Proof.
  intros H.
  assert (d = 0 \/ d = 1 \/ d = 2 \/ d = 3 \/ d = 4 \/ d = 5 \/ d = 6
          \/ d = 7 \/ d = 8 \/ d = 9)%N as Hd by lia.
  repeat (destruct Hd as [-> | Hd]; [split; reflexivity |]).
  subst d. split; reflexivity.
Qed.

(** Reading the digits [pretty_N_go] puts in front of [s]. *)
Lemma atoi_digits_pretty_go (x : N) (s : string) :
  atoi_digits 0 (pretty_N_go x s) = atoi_digits (Z.of_N x) s.
Proof.
  revert s. induction (N.lt_wf_0 x) as [x _ IH]; intros s.
  destruct (N.eq_dec x 0%N) as [-> | Hx].
  - rewrite pretty_N_go_0. reflexivity.
  - rewrite pretty_N_go_step by lia.
    rewrite IH by (apply N.div_lt; lia).
    destruct (pretty_N_char_digit (x `mod` 10)%N) as [Hd Hv].
    { apply N.mod_lt. discriminate. }
    cbn [atoi_digits]. rewrite Hd, Hv. f_equal.
    rewrite (N.div_mod x 10) at 3 by lia. lia.
Qed.

Lemma pretty_go_head (x : N) (s : string) :
  (0 < x)%N ->
  exists d r, pretty_N_go x s = String d r /\ isdigit d = true.
Proof.
  revert s. induction (N.lt_wf_0 x) as [x _ IH]; intros s Hx.
  rewrite pretty_N_go_step by exact Hx.
  destruct (N.eq_dec (x `div` 10)%N 0%N) as [E | E].
  - rewrite E, pretty_N_go_0. eexists _, _. split; [reflexivity |].
    destruct (pretty_N_char_digit (x `mod` 10)%N) as [Hd _]; [| exact Hd].
    apply N.mod_lt. discriminate.
  - apply IH; [apply N.div_lt; [exact Hx | reflexivity] |].
    apply N.neq_0_lt_0. exact E.
Qed.

Lemma decimal_value_head_digit (c : ascii) (r : string) :
  isdigit c = true -> decimal_value (String c r) = atoi_digits 0 (String c r).
Proof.
  intros H. destruct c as [[] [] [] [] [] [] [] []];
    try (vm_compute in H; discriminate); reflexivity.
Qed.

Lemma decimal_value_pretty_N (x : N) : decimal_value (pretty x) = Z.of_N x.
Proof.
  unfold pretty, pretty_N. destruct (decide (x = 0%N)) as [-> | Hx].
  - reflexivity.
  - destruct (pretty_go_head x EmptyString) as (d & r & E & Hd); [lia |].
    rewrite E, (decimal_value_head_digit d r Hd), <- E.
    rewrite atoi_digits_pretty_go. reflexivity.
Qed.

(** The text [pretty] writes for a number denotes that number. *)
Lemma decimal_value_pretty (z : Z) : decimal_value (pretty z) = z.
Proof.
  destruct z as [| p | p].
  - reflexivity.
  - change (pretty (Z.pos p)) with (pretty (N.pos p)).
    rewrite decimal_value_pretty_N. reflexivity.
  - change (pretty (Z.neg p)) with (String "-"%char (pretty (N.pos p))).
    unfold pretty, pretty_N.
    destruct (decide (N.pos p = 0%N)) as [E | _]; [discriminate |].
    unfold decimal_value. cbn [skip_spaces].
    change (isspace "-") with false. cbn iota.
    rewrite atoi_digits_pretty_go. reflexivity.
Qed.

(** [atoi] returns the number the text denotes when it is an [int]. *)
Lemma atoi_in_range (s : string) :
  - 2 ^ 31 <= decimal_value s < 2 ^ 31 -> atoi s = decimal_value s.
Proof.
  intros H. unfold atoi, strtol, int_of_long, LONG_MIN, LONG_MAX.
  rewrite Z.min_r, Z.max_r by lia.
  rewrite Z.mod_small by lia. lia.
Qed.

(** Whatever the text, [atoi] returns an [int]. *)
Lemma atoi_int (s : string) : - 2 ^ 31 <= atoi s < 2 ^ 31.
Proof.
  unfold atoi, int_of_long.
  pose proof (Z.mod_pos_bound (strtol s + 2 ^ 31) (2 ^ 32)) as H. lia.
Qed.

Lemma atoi_pretty (z : Z) : - 2 ^ 31 <= z < 2 ^ 31 -> atoi (pretty z) = z.
Proof.
  intros H. rewrite atoi_in_range; rewrite decimal_value_pretty; auto.
Qed.

(** Outside [int] the low 32 bits remain, and beyond [long] the bound of
    [long] is what is converted. *)
Example atoi_int_max : atoi "2147483647" = 2147483647.
Proof. vm_compute. reflexivity. Qed.

Example atoi_wraps : atoi "2147483648" = -2147483648.
Proof. vm_compute. reflexivity. Qed.

Example atoi_wraps_to_1 : atoi "4294967297" = 1.
Proof. vm_compute. reflexivity. Qed.

Example atoi_wraps_negative : atoi "-2147483649" = 2147483647.
Proof. vm_compute. reflexivity. Qed.

Example atoi_beyond_long : atoi "99999999999999999999999" = -1.
Proof. vm_compute. reflexivity. Qed.

Example atoi_below_long : atoi "-99999999999999999999999" = 0.
Proof. vm_compute. reflexivity. Qed.

Example atoi_stops_at_letter : atoi "  +12x" = 12.
Proof. vm_compute. reflexivity. Qed.

(** X12. [atoi] reads back the decimal text of every [int]: for every
    ticket id the text the server returns for it (an optional minus sign
    and the digits, without leading zeros) is converted to that id. *)
Theorem X12_atoi_reads_decimal (z : Z) :
  - 2 ^ 31 <= z < 2 ^ 31 -> atoi (pretty z) = z.
Proof. apply atoi_pretty. Qed.

Lemma X12_atoi_reads_decimal_witness : atoi (pretty (-2147483648)) = -2147483648.
Proof. apply X12_atoi_reads_decimal. lia. Defined.

Lemma atoi_no_number (s : string) :
  match skip_spaces s with
  | String c _ => isdigit c = false /\ c <> "-"%char /\ c <> "+"%char
  | EmptyString => True
  end ->
  atoi s = 0.
Proof.
  intros H. assert (decimal_value s = 0) as E.
  { unfold decimal_value. destruct (skip_spaces s) as [| c r]; [reflexivity |].
    destruct H as (Hd & Hm & Hp).
    destruct c as [[] [] [] [] [] [] [] []];
      try (vm_compute in Hd; discriminate); try contradiction;
      cbn [atoi_digits]; rewrite ?Hd; reflexivity. }
  unfold atoi, strtol. rewrite E. reflexivity.
Qed.

(** ** [main]: the start-up *)


Lemma pending_rows_elem (t : table) (id : Z) :
  id ∈ (pending_rows t).*1 <->
  exists r, t !! id = Some r /\ status r <> completed.
Proof.
  unfold pending_rows. rewrite list_elem_of_fmap. split.
  - intros ([i r] & -> & H). apply list_elem_of_filter in H as [Hp Hin].
    apply elem_of_map_to_list in Hin. exists r. split; [exact Hin |].
    cbn in Hp. intros E. rewrite E in Hp. discriminate.
  - intros (r & Hr & Hs). exists (id, r). split; [reflexivity |].
    apply list_elem_of_filter. split; [| by apply elem_of_map_to_list].
    cbn. destruct (status r); try reflexivity. contradiction.
Qed.

Lemma pending_rows_NoDup (t : table) : NoDup (pending_rows t).*1.
Proof.
  apply (sublist_NoDup _ _ (NoDup_fst_map_to_list t)).
  apply fmap_sublist, sublist_filter.
Qed.

(** The calls of the backlog loop name the pending tickets, in the order
    of the rows. *)
Lemma backlog_calls_pending (st : ExecStatusType) (t : table) (oracle : nat -> env) :
  int_ids t ->
  backlog_calls (MkResult st (exec_rows SelectBacklog t)) oracle =
    imap (fun i (p : Z * ticket) => (fst p, oracle i)) (pending_rows t).
Proof.
  intros Hint. unfold backlog_calls. cbn [tuples exec_rows]. fold (pending_rows t).
  set (rows := (fun p : Z * ticket => [pretty (fst p)]) <$> pending_rows t).
  transitivity (imap (fun i (row : list string) => (atoi (nth 0 row EmptyString), oracle i)) rows).
  - apply imap_ext. intros i row Hi. unfold PQgetvalue. cbn [tuples].
    by rewrite (nth_lookup_Some rows i [] row Hi).
  - subst rows. rewrite imap_fmap. apply imap_ext. intros i [id r] Hi.
    cbn. rewrite atoi_pretty; [reflexivity |].
    apply Hint. apply list_elem_of_lookup_2 in Hi.
    assert (id ∈ (pending_rows t).*1) as Hin.
    { apply list_elem_of_fmap. exists (id, r). auto. }
    apply pending_rows_elem in Hin as (r' & -> & _). eauto.
Qed.

Lemma backlog_ids (st : ExecStatusType) (t : table) (oracle : nat -> env) :
  int_ids t ->
  (backlog_calls (MkResult st (exec_rows SelectBacklog t)) oracle).*1
  = (pending_rows t).*1.
Proof.
  intros Hint. rewrite backlog_calls_pending by exact Hint. rewrite fmap_imap.
  rewrite <- (imap_const fst). apply imap_ext. reflexivity.
Qed.

(** The start-up when everything before the backlog loop works. *)
Lemma main_startup_serving
    (environ : gmap string string) (server : string -> option table)
    (b : boot) (oracle : nat -> env) (c : config) (out : list string)
    (t : table) :
  int_ids t ->
  load_env_variables environ = inr (c, out) ->
  sprintf_fits 256 (conninfo c) = true ->
  server (conninfo c) = Some t ->
  listen_ok b = true -> backlog_ok b = true ->
  main_startup environ server b oracle =
    Serving
      ([EvExec Listen PGRES_COMMAND_OK; EvExec SelectBacklog PGRES_TUPLES_OK]
       ++ fst (run (launch t)
                 (imap (fun i (p : Z * ticket) => (fst p, oracle i))
                       (pending_rows t))))
      (snd (run (launch t)
              (imap (fun i (p : Z * ticket) => (fst p, oracle i))
                    (pending_rows t)))).
Proof.
  intros Hint Hl Hfit Hc Hli Hb. unfold main_startup, connect_to_db.
  rewrite Hl, Hfit, Hc, Hli, Hb. unfold PQexec.
  cbn [PQresultStatus ok_status ExecStatusType_eqb negb exec_table].
  rewrite backlog_calls_pending by exact Hint.
  destruct (run (launch t) _) as [ev w]. reflexivity.
Qed.



(** A backlog query that the server refuses is passed over: [main]
    enters its event loop with the table as it was and the failure counter
    at 0, having called [process_ticket] for no ticket. *)
Lemma main_startup_backlog_refused
    (environ : gmap string string) (server : string -> option table)
    (b : boot) (oracle : nat -> env) (c : config) (out : list string)
    (t : table) :
  load_env_variables environ = inr (c, out) ->
  sprintf_fits 256 (conninfo c) = true ->
  server (conninfo c) = Some t ->
  listen_ok b = true -> backlog_ok b = false ->
  main_startup environ server b oracle =
    Serving [EvExec Listen PGRES_COMMAND_OK;
             EvExec SelectBacklog PGRES_FATAL_ERROR]
            (World t 0).
Proof.
  intros Hl Hfit Hc Hli Hb. unfold main_startup, connect_to_db.
  rewrite Hl, Hfit, Hc, Hli, Hb. reflexivity.
Qed.

(** X14. When the connection string fits [conninfo], the server accepts
    it, every ticket id is an [int] and LISTEN and the backlog query are
    executed, the backlog loop calls [process_ticket] once for each ticket
    that is in ['received'] or ['processing'] when [main] connects, and
    for no other id; the call for row [i] of the result runs in the
    environment [oracle i]. *)
Theorem X14_backlog_calls_pending_tickets
    (environ : gmap string string) (server : string -> option table)
    (b : boot) (oracle : nat -> env) (c : config) (out : list string)
    (t : table) :
  int_ids t ->
  load_env_variables environ = inr (c, out) ->
  sprintf_fits 256 (conninfo c) = true ->
  server (conninfo c) = Some t ->
  listen_ok b = true -> backlog_ok b = true ->
  exists calls,
    main_startup environ server b oracle =
      Serving ([EvExec Listen PGRES_COMMAND_OK;
                EvExec SelectBacklog PGRES_TUPLES_OK]
               ++ fst (run (launch t) calls))
              (snd (run (launch t) calls)) /\
    NoDup calls.*1 /\
    (forall id,
       id ∈ calls.*1 <->
       status_of t id = Some received \/ status_of t id = Some processing) /\
    (forall i id e, calls !! i = Some (id, e) -> e = oracle i).
Proof.
  intros Hint Hl Hfit Hc Hli Hb.
  exists (imap (fun i (p : Z * ticket) => (fst p, oracle i)) (pending_rows t)).
  split; [by apply (main_startup_serving _ _ _ _ c out) |].
  assert ((imap (fun i (p : Z * ticket) => (fst p, oracle i)) (pending_rows t)).*1
          = (pending_rows t).*1) as E.
  { rewrite fmap_imap. rewrite <- (imap_const fst). apply imap_ext. reflexivity. }
  rewrite E. split; [apply pending_rows_NoDup |]. split.
  - intros id. rewrite pending_rows_elem. unfold status_of. split.
    + intros (r & -> & Hs). cbn. destruct (status r); auto. contradiction.
    + destruct (t !! id) as [r |]; cbn; [| intros [H | H]; discriminate].
      intros [[= H] | [= H]]; exists r; rewrite H; split; auto; discriminate.
  - intros i id e Hi. rewrite list_lookup_imap in Hi.
    destruct (pending_rows t !! i) as [p |]; cbn in Hi; congruence.
Qed.

Lemma sample_table_int_ids : int_ids sample_table.
Proof.
  intros id [r H]. apply elem_of_map_to_list, list_elem_of_In in H.
  vm_compute in H.
  destruct H as [[= <- _] | [[= <- _] | [[= <- _] | [[= <- _] | []]]]]; lia.
Qed.

Lemma sample_environ_loads :
  exists c out,
    load_env_variables sample_environ = inr (c, out) /\
    sprintf_fits 256 (conninfo c) = true.
Proof.
  destruct (load_env_variables sample_environ) as [[st msg] | [c out]] eqn:H.
  - vm_compute in H. discriminate.
  - exists c, out. split; [reflexivity |].
    vm_compute in H. injection H as <- _. reflexivity.
Defined.

(** An environment that is accepted and whose connection string is too
    long for [conninfo]. *)
Example main_startup_long_environ :
  main_startup long_environ sample_server sample_boot (fun _ => env_fine)
  = Undefined.
Proof. vm_compute. reflexivity. Qed.

Lemma X14_backlog_calls_pending_tickets_witness :
  exists calls,
    main_startup sample_environ sample_server sample_boot (fun _ => env_fine) =
      Serving ([EvExec Listen PGRES_COMMAND_OK;
                EvExec SelectBacklog PGRES_TUPLES_OK]
               ++ fst (run (launch sample_table) calls))
              (snd (run (launch sample_table) calls)) /\
    NoDup calls.*1.
Proof.
  destruct sample_environ_loads as (c & out & H & Hfit).
  destruct (X14_backlog_calls_pending_tickets sample_environ sample_server
              sample_boot (fun _ => env_fine) c out sample_table)
    as (calls & H1 & H2 & _);
    [exact sample_table_int_ids | exact H | exact Hfit | reflexivity..|].
  exists calls. split; [exact H1 | exact H2].
Defined.

(** ** Rows along calls *)

(** What a call leaves of a row: the contents, a status that is not
    earlier in the life cycle, and the row itself if the call was for
    another id. *)
Lemma call_row (e : env) (w : world) (id j : Z) (r : ticket) :
  db w !! j = Some r ->
  exists r',
    db (snd (process_ticket e w id)) !! j = Some r' /\
    email r' = email r /\ subject r' = subject r /\ body r' = body r /\
    (status_rank (status r) <= status_rank (status r'))%nat /\
    (j <> id -> r' = r) /\
    (claim_ok e = true -> j = id -> status r' <> received).
Proof.
  intros Hr. destruct (decide (j = id)) as [-> | Hne].
  2:{ exists r. rewrite process_ticket_other by congruence.
      repeat split; auto; try contradiction; try congruence. }
  pose proof (claim_lookup id (now e) (db w) r Hr) as Hc.
  fold (claimed e w id) in Hc.
  set (rc := if Status_eqb (status r) completed then r
             else with_status processing r) in Hc.
  assert (email rc = email r /\ subject rc = subject r /\ body rc = body r /\
          (status_rank (status r) <= status_rank (status rc))%nat /\
          status rc <> received) as (C1 & C2 & C3 & C4 & C5).
  { subst rc. destruct r as [em su bo [] sa]; cbn; repeat split; auto;
      discriminate. }
  destruct (process_ticket_shape e w id); rewrite Eres; cbn [snd db].
  - exists r. repeat split; auto; try contradiction; try congruence.
  - exists rc. repeat split; auto; try contradiction; try congruence.
  - exists rc. repeat split; auto; try contradiction; try congruence.
  - rewrite (rejected_lookup (reject_ok e) (now e) id _ rc Hc).
    eexists. split; [reflexivity |].
    rewrite Hc in Hrow. injection Hrow as <-.
    destruct (reject_ok e); cbn; repeat split; auto; try discriminate;
      try contradiction.
    rewrite Hst in C4. exact C4.
  - rewrite (completed_lookup (complete_ok e) (now e) id _ rc Hc).
    eexists. split; [reflexivity |].
    destruct (complete_ok e); cbn; repeat split; auto; try discriminate;
      try contradiction.
    destruct (status r); cbn; lia.
  - exists rc. repeat split; auto; try contradiction; try congruence.
Qed.

Lemma run_row (w : world) (calls : list (Z * env)) (j : Z) (r : ticket) :
  db w !! j = Some r ->
  exists r',
    db (snd (run w calls)) !! j = Some r' /\
    email r' = email r /\ subject r' = subject r /\ body r' = body r /\
    (status_rank (status r) <= status_rank (status r'))%nat /\
    (j ∉ calls.*1 -> r' = r).
Proof.
  revert w r. induction calls as [| [id e] rest IH]; intros w r Hr.
  - exists r. cbn. repeat split; auto.
  - rewrite run_cons. cbn [snd].
    destruct (call_row e w id j r Hr) as (r1 & H1 & E1 & E2 & E3 & L1 & N1 & _).
    destruct (IH _ r1 H1) as (r2 & H2 & F1 & F2 & F3 & L2 & N2).
    exists r2. repeat split; try congruence; try lia.
    intros Hn. cbn in Hn. rewrite not_elem_of_cons in Hn. destruct Hn as [Hj Hn].
    rewrite (N2 Hn). apply N1. exact Hj.
Qed.

(** X15. Along every sequence of calls, from any state: no row is lost,
    the address, subject and text of a row never change, its status never
    moves back in the order received, processing, completed, and a row
    whose id is not among the calls is left exactly as it was. *)
Theorem X15_rows_along_calls
    (w : world) (calls : list (Z * env)) (j : Z) (r : ticket) :
  db w !! j = Some r ->
  exists r',
    db (snd (run w calls)) !! j = Some r' /\
    email r' = email r /\ subject r' = subject r /\ body r' = body r /\
    (status_rank (status r) <= status_rank (status r'))%nat /\
    (j ∉ calls.*1 -> r' = r).
Proof. apply run_row. Qed.

Lemma X15_rows_along_calls_witness :
  exists r',
    db (snd (run sample_world retry_calls)) !! 42 = Some r' /\
    email r' = "a@b.com"%string /\
    (status_rank received <= status_rank (status r'))%nat.
Proof.
  destruct (X15_rows_along_calls sample_world retry_calls 42 ticket_42)
    as (r' & H1 & H2 & _ & _ & H3 & _).
  - vm_compute. reflexivity.
  - exists r'. split; [exact H1 |]. split; [exact H2 | exact H3].
Defined.

(** ** The backlog loop *)


Lemma imap_oracle_Forall (P : env -> Prop) (oracle : nat -> env)
    (l : list (Z * ticket)) :
  (forall i, P (oracle i)) ->
  Forall (fun p : Z * env => P (snd p))
         (imap (fun i (p : Z * ticket) => (fst p, oracle i)) l).
Proof.
  intros H. apply Forall_lookup. intros i [id e] Hi.
  rewrite list_lookup_imap in Hi.
  destruct (l !! i) as [p |]; cbn in Hi; [| discriminate].
  injection Hi as _ <-. apply H.
Qed.

Lemma imap_oracle_ids (oracle : nat -> env) (l : list (Z * ticket)) :
  (imap (fun i (p : Z * ticket) => (fst p, oracle i)) l).*1 = l.*1.
Proof.
  rewrite fmap_imap. rewrite <- (imap_const fst). apply imap_ext. reflexivity.
Qed.



Lemma healthy_parts (e : env) :
  healthy e = true ->
  claim_ok e = true /\ fetch_ok e = true /\ reject_ok e = true /\
  complete_ok e = true /\
  forall to subj text, snd (send_email e to subj text) <> 0.
Proof.
  unfold healthy. rewrite !andb_true_iff, orb_true_iff.
  intros [[[[H1 H2] H5] H3] H4]. repeat split; auto.
  intros to subj text. rewrite send_email_ret.
  destruct (curl_handle e); [| discriminate].
  destruct H4 as [H4 | H4]; [discriminate |]. rewrite H4. discriminate.
Qed.

(** One call in a healthy environment for a ticket that is not
    ['completed']. *)
Lemma healthy_call (e : env) (w : world) (id : Z) (r : ticket) :
  healthy e = true -> db w !! id = Some r -> status r <> completed ->
  (is_valid_email (email r) <> 0 ->
   db (snd (process_ticket e w id)) !! id =
     Some (with_status completed
             (with_sent_at (Some (now e)) (with_status processing r))) /\
   auth_failures (snd (process_ticket e w id)) = 0) /\
  (is_valid_email (email r) = 0 ->
   db (snd (process_ticket e w id)) !! id =
     Some (with_sent_at (Some (now e)) (with_status processing r)) /\
   auth_failures (snd (process_ticket e w id)) = gate_counter w).
Proof.
  intros He Hr Hs. destruct (healthy_parts e He) as (Hc & Hf & Hro & Hco & Hse).
  destruct (claimed_rows_live e w id r Hr Hs) as [Hl Hrow].
  split; intros Hv.
  - rewrite (path_sent e w id r Hc Hf Hrow Hv (Hse _ _ _)). cbn [snd db auth_failures].
    rewrite (completed_lookup (complete_ok e) (now e) id _ _ Hl), Hco. auto.
  - rewrite (path_rejected e w id r Hc Hf Hrow Hv). cbn [snd db auth_failures].
    rewrite (rejected_lookup (reject_ok e) (now e) id _ _ Hl), Hro. auto.
Qed.

(** A healthy call never raises the counter. *)
Lemma healthy_counter (e : env) (w : world) (id : Z) :
  healthy e = true -> auth_failures w = 0 ->
  auth_failures (snd (process_ticket e w id)) = 0.
Proof.
  intros He H0. destruct (healthy_parts e He) as (_ & _ & _ & _ & Hse).
  assert (gate_counter w = 0) as Hg.
  { unfold gate_counter. rewrite H0. reflexivity. }
  destruct (process_ticket_shape e w id); rewrite Eres; cbn [snd auth_failures];
    try exact Hg; try reflexivity.
  exfalso. apply (Hse _ _ _ Hsent).
Qed.

Lemma healthy_run_counter (w : world) (calls : list (Z * env)) :
  Forall (fun p : Z * env => healthy (snd p) = true) calls ->
  auth_failures w = 0 -> auth_failures (snd (run w calls)) = 0.
Proof.
  revert w. induction calls as [| [j e] rest IH]; intros w HF H0; [exact H0 |].
  apply Forall_cons_1 in HF as [He HF]. rewrite run_cons. cbn [snd].
  apply IH; [exact HF |]. by apply healthy_counter.
Qed.

(** A healthy run that calls a pending ticket once. *)
Lemma healthy_run (calls : list (Z * env)) (w : world) (id : Z) (r : ticket) :
  Forall (fun p : Z * env => healthy (snd p) = true) calls ->
  NoDup calls.*1 -> id ∈ calls.*1 ->
  db w !! id = Some r -> status r <> completed ->
  exists ts,
    db (snd (run w calls)) !! id =
      Some (if is_valid_email (email r) =? 0
            then with_sent_at (Some ts) (with_status processing r)
            else with_status completed
                   (with_sent_at (Some ts) (with_status processing r))).
Proof.
  revert w. induction calls as [| [j e] rest IH]; intros w HF Hnd Hin Hr Hs.
  - by apply elem_of_nil in Hin.
  - apply Forall_cons_1 in HF as [He HF]. cbn [snd] in He.
    cbn in Hnd. apply NoDup_cons in Hnd as [Hj Hnd].
    rewrite run_cons. cbn [snd].
    destruct (decide (j = id)) as [-> | Hne].
    + exists (now e).
      destruct (healthy_call e w id r He Hr Hs) as [Hv Hi].
      destruct (Z.eqb_spec (is_valid_email (email r)) 0) as [E | E].
      * destruct (Hi E) as [Hrow _].
        destruct (run_row _ rest id _ Hrow) as (r' & H' & _ & _ & _ & _ & Hsame).
        rewrite H', (Hsame Hj). reflexivity.
      * destruct (Hv E) as [Hrow _].
        destruct (run_row _ rest id _ Hrow) as (r' & H' & _ & _ & _ & _ & Hsame).
        rewrite H', (Hsame Hj). reflexivity.
    + cbn in Hin. apply elem_of_cons in Hin as [-> | Hin]; [contradiction |].
      apply (IH _ HF Hnd Hin); [| exact Hs].
      rewrite process_ticket_other by exact Hne. exact Hr.
Qed.

(** X17. When everything works during the start-up (the connection
    string fits [conninfo], every ticket id is an [int], every statement
    is executed and every mail is accepted), [main] enters its event loop
    with the failure counter at 0 and with every ticket settled: a ticket
    that was ['completed'] is untouched, a pending ticket with an accepted
    address is ['completed'] with [sent_at] set, and a pending ticket with
    a rejected address is in ['processing'] with [sent_at] set. *)
Theorem X17_healthy_backlog_settles
    (environ : gmap string string) (server : string -> option table)
    (b : boot) (oracle : nat -> env) (c : config) (out : list string)
    (t : table) :
  int_ids t ->
  load_env_variables environ = inr (c, out) ->
  sprintf_fits 256 (conninfo c) = true ->
  server (conninfo c) = Some t ->
  listen_ok b = true -> backlog_ok b = true ->
  (forall i, healthy (oracle i) = true) ->
  exists tr w,
    main_startup environ server b oracle = Serving tr w /\
    auth_failures w = 0 /\
    forall id r,
      t !! id = Some r ->
      (status r = completed -> db w !! id = Some r) /\
      (status r <> completed -> is_valid_email (email r) <> 0 ->
       status_of (db w) id = Some completed /\
       exists ts, sent_at_of (db w) id = Some (Some ts)) /\
      (status r <> completed -> is_valid_email (email r) = 0 ->
       status_of (db w) id = Some processing /\
       exists ts, sent_at_of (db w) id = Some (Some ts)).
Proof.
  intros Hint Hl Hfit Hc Hli Hb Ho.
  rewrite (main_startup_serving _ _ _ _ c out t Hint Hl Hfit Hc Hli Hb).
  eexists _, _. split; [reflexivity |].
  pose proof (imap_oracle_Forall (fun e => healthy e = true) oracle
                (pending_rows t) Ho) as HF.
  split; [by apply healthy_run_counter |].
  intros id r Hr. split; [| split].
  - intros Hs.
    destruct (run_row (launch t)
                (imap (fun i (p : Z * ticket) => (fst p, oracle i)) (pending_rows t))
                id r Hr) as (r' & H' & _ & _ & _ & _ & Hsame).
    rewrite H'. f_equal. apply Hsame.
    rewrite imap_oracle_ids, pending_rows_elem.
    intros (r0 & E & Hn). cbn [launch db] in Hr. congruence.
  - intros Hs Hv.
    destruct (healthy_run _ (launch t) id r HF) as [ts E]; try assumption.
    { rewrite imap_oracle_ids. apply pending_rows_NoDup. }
    { rewrite imap_oracle_ids, pending_rows_elem. eauto. }
    apply Z.eqb_neq in Hv. rewrite Hv in E.
    unfold status_of, sent_at_of. rewrite E. cbn. eauto.
  - intros Hs Hv.
    destruct (healthy_run _ (launch t) id r HF) as [ts E]; try assumption.
    { rewrite imap_oracle_ids. apply pending_rows_NoDup. }
    { rewrite imap_oracle_ids, pending_rows_elem. eauto. }
    rewrite Hv in E. cbn in E.
    unfold status_of, sent_at_of. rewrite E. cbn. eauto.
Qed.

Lemma X17_healthy_backlog_settles_witness :
  exists tr w,
    main_startup sample_environ sample_server sample_boot (fun _ => env_fine)
      = Serving tr w /\
    auth_failures w = 0 /\
    status_of (db w) 42 = Some completed /\
    status_of (db w) 9 = Some processing.
Proof.
  destruct sample_environ_loads as (c & out & H & Hfit).
  destruct (X17_healthy_backlog_settles sample_environ sample_server
              sample_boot (fun _ => env_fine) c out sample_table)
    as (tr & w & H1 & H2 & H3);
    [exact sample_table_int_ids | exact H | exact Hfit | reflexivity..|].
  exists tr, w. split; [exact H1 |]. split; [exact H2 |]. split.
  - apply (H3 42 ticket_42); [vm_compute; reflexivity | discriminate |].
    vm_compute. discriminate.
  - apply (H3 9 ticket_9); [vm_compute; reflexivity | discriminate |].
    vm_compute. reflexivity.
Defined.

(** ** [main]: the event loop *)

(** X18. A notification whose payload does not start, after white space,
    with a sign or a digit (the empty payload included) is handled as a
    notification for ticket 0: the turn is the call of [process_ticket]
    for id 0 followed by [sleep(1)]. *)
Theorem X18_payload_without_number (w : world) (extra : string) (e : env) :
  match skip_spaces extra with
  | String c _ => isdigit c = false /\ c <> "-"%char /\ c <> "+"%char
  | EmptyString => True
  end ->
  serve_once w [(extra, e)] =
    (fst (process_ticket e w 0) ++ [EvSleep 1], snd (process_ticket e w 0)).
Proof.
  intros H. unfold serve_once. cbn [map fst snd].
  rewrite (atoi_no_number extra H), run_cons. cbn [run fst snd].
  rewrite app_nil_r. reflexivity.
Qed.

Lemma X18_payload_without_number_witness :
  serve_once sample_world [("ticket 42"%string, env_fine)] =
    (fst (process_ticket env_fine sample_world 0) ++ [EvSleep 1],
     snd (process_ticket env_fine sample_world 0)).
Proof.
  apply (X18_payload_without_number sample_world "ticket 42" env_fine).
  cbn. repeat split; discriminate.
Defined.

Lemma serve_once_world (w : world) (pending : list (string * env)) :
  snd (serve_once w pending) =
    snd (run w (map (fun n : string * env => (atoi (fst n), snd n)) pending)).
Proof.
  unfold serve_once. destruct (run w _) as [ev w1]. reflexivity.
Qed.

Lemma serve_world (w : world) (turns : list (list (string * env))) :
  snd (serve w turns) = snd (run w (turn_calls turns)).
Proof.
  revert w. induction turns as [| pending rest IH]; intros w; [reflexivity |].
  cbn [serve]. unfold turn_calls. cbn [map concat]. rewrite run_app. cbn [snd].
  rewrite <- serve_once_world.
  destruct (serve_once w pending) as [ev w1]. cbn [snd].
  specialize (IH w1). destruct (serve w1 rest) as [evs w2]. cbn [snd] in *.
  exact IH.
Qed.

(** Whatever [main] has done when it is in its event loop, it has done by
    calls of [process_ticket] from the launch state. *)
Lemma main_startup_world
    (environ : gmap string string) (server : string -> option table)
    (b : boot) (oracle : nat -> env) (tr : list event) (w : world) :
  main_startup environ server b oracle = Serving tr w ->
  exists t calls, w = snd (run (launch t) calls).
Proof.
  unfold main_startup.
  destruct (load_env_variables environ) as [[st msg] | [c out]];
    [discriminate |].
  destruct (connect_to_db c server) as [| | t]; [discriminate.. |].
  unfold PQexec. destruct (listen_ok b);
    cbn [PQresultStatus ok_status ExecStatusType_eqb negb exec_table];
    [| discriminate].
  destruct (backlog_ok b);
    cbn [PQresultStatus ok_status ExecStatusType_eqb negb exec_table].
  - destruct (run (launch t) _) as [ev w1] eqn:E. intros [= _ <-].
    eexists t, _. rewrite E. reflexivity.
  - intros [= _ <-]. by exists t, [].
Qed.

(** ** The event loop among other clients *)

Lemma carries_on_refl (r : ticket) : carries_on r r.
Proof. unfold carries_on. auto. Qed.

Lemma carries_on_trans (r1 r2 r3 : ticket) :
  carries_on r1 r2 -> carries_on r2 r3 -> carries_on r1 r3.
Proof.
  unfold carries_on. intros (A1 & A2 & A3 & A4) (B1 & B2 & B3 & B4).
  repeat split; try congruence. lia.
Qed.

Lemma event_loop_notification
    (w : world) (extra : string) (e : env) (rest : list occurrence) :
  event_loop w (Notification extra e :: rest) =
    (fst (process_ticket e w (atoi extra))
       ++ fst (event_loop (snd (process_ticket e w (atoi extra))) rest),
     snd (event_loop (snd (process_ticket e w (atoi extra))) rest)).
Proof.
  cbn [event_loop]. destruct (process_ticket e w (atoi extra)) as [ev w1].
  cbn [fst snd]. destruct (event_loop w1 rest) as [evs w2]. reflexivity.
Qed.

Lemma event_loop_queue_empty (w : world) (rest : list occurrence) :
  event_loop w (QueueEmpty :: rest) =
    (EvSleep 1 :: fst (event_loop w rest), snd (event_loop w rest)).
Proof.
  cbn [event_loop]. destruct (event_loop w rest) as [evs w2]. reflexivity.
Qed.

Lemma event_loop_app (w : world) (a b : list occurrence) :
  event_loop w (a ++ b) =
    (fst (event_loop w a) ++ fst (event_loop (snd (event_loop w a)) b),
     snd (event_loop (snd (event_loop w a)) b)).
Proof.
  revert w. induction a as [| [id r | extra e |] a IH]; intros w.
  - cbn. destruct (event_loop w b); reflexivity.
  - rewrite <- app_comm_cons. cbn [event_loop]. apply IH.
  - rewrite <- app_comm_cons, !event_loop_notification, IH. cbn [fst snd].
    rewrite app_assoc. reflexivity.
  - rewrite <- app_comm_cons, !event_loop_queue_empty, IH. reflexivity.
Qed.

(** Notifications in a row are a run of calls. *)
Lemma event_loop_notifications (w : world) (pending : list (string * env)) :
  event_loop w (map (fun n => Notification (fst n) (snd n)) pending) =
    run w (map (fun n : string * env => (atoi (fst n), snd n)) pending).
Proof.
  revert w. induction pending as [| [extra e] rest IH]; intros w; [reflexivity |].
  cbn [map fst snd]. rewrite event_loop_notification, run_cons, IH.
  reflexivity.
Qed.

(** When no row arrives, the loop is [serve]. *)
Lemma serve_event_loop (w : world) (turns : list (list (string * env))) :
  serve w turns = event_loop w (turn_occurrences turns).
Proof.
  revert w. induction turns as [| pending rest IH]; intros w; [reflexivity |].
  unfold turn_occurrences. cbn [map concat]. fold (turn_occurrences rest).
  rewrite !event_loop_app, event_loop_notifications.
  cbn [serve]. unfold serve_once.
  destruct (run w _) as [ev w1]. cbn [fst snd].
  rewrite event_loop_queue_empty. cbn [event_loop fst snd].
  rewrite IH. destruct (event_loop w1 (turn_occurrences rest)) as [evs w2].
  cbn [fst snd]. rewrite <- !app_assoc. reflexivity.
Qed.

Lemma client_insert_row (id j : Z) (r0 r : ticket) (t : table) :
  t !! j = Some r -> client_insert id r0 t !! j = Some r.
Proof.
  intros H. unfold client_insert. destruct (t !! id) eqn:E; [exact H |].
  rewrite lookup_insert_ne; [exact H | congruence].
Qed.

Lemma client_insert_arrived (id : Z) (r0 : ticket) (t : table) :
  is_Some (client_insert id r0 t !! id).
Proof.
  unfold client_insert. destruct (t !! id) eqn:E; [rewrite E; eauto |].
  rewrite lookup_insert_eq. eauto.
Qed.

Lemma client_insert_only (id j : Z) (r0 : ticket) (t : table) :
  is_Some (client_insert id r0 t !! j) -> is_Some (t !! j) \/ j = id.
Proof.
  unfold client_insert. destruct (t !! id) eqn:E; [auto |].
  destruct (decide (id = j)) as [-> | Hne]; [auto |].
  rewrite lookup_insert_ne by exact Hne. auto.
Qed.

(** A row that is in the table stays, whatever the loop meets. *)
Lemma event_loop_row (w : world) (os : list occurrence) (j : Z) (r : ticket) :
  db w !! j = Some r ->
  exists r', db (snd (event_loop w os)) !! j = Some r' /\ carries_on r r'.
Proof.
  revert w r. induction os as [| [id r0 | extra e |] rest IH]; intros w r Hr.
  - exists r. split; [exact Hr | apply carries_on_refl].
  - cbn [event_loop]. apply IH. cbn [db]. by apply client_insert_row.
  - rewrite event_loop_notification. cbn [snd].
    destruct (call_row e w (atoi extra) j r Hr)
      as (r1 & H1 & E1 & E2 & E3 & L1 & _).
    destruct (IH _ r1 H1) as (r2 & H2 & C2).
    exists r2. split; [exact H2 |].
    apply (carries_on_trans r r1 r2); [unfold carries_on; auto | exact C2].
  - rewrite event_loop_queue_empty. cbn [snd]. by apply IH.
Qed.

(** A row that arrives is in the table from then on. *)
Lemma event_loop_arrived (w : world) (os : list occurrence) (j : Z) :
  j ∈ arrivals os -> is_Some (db (snd (event_loop w os)) !! j).
Proof.
  revert w. induction os as [| [id r0 | extra e |] rest IH]; intros w Hj.
  - by apply elem_of_nil in Hj.
  - cbn [event_loop]. cbn in Hj. apply elem_of_cons in Hj as [-> | Hj].
    + destruct (client_insert_arrived id r0 (db w)) as [r Hr].
      destruct (event_loop_row (World (client_insert id r0 (db w))
                                  (auth_failures w)) rest id r Hr)
        as (r' & H' & _).
      eauto.
    + by apply IH.
  - rewrite event_loop_notification. cbn [snd]. by apply IH.
  - rewrite event_loop_queue_empty. cbn [snd]. by apply IH.
Qed.

(** The loop itself adds no row. *)
Lemma event_loop_no_new (w : world) (os : list occurrence) (j : Z) :
  is_Some (db (snd (event_loop w os)) !! j) ->
  is_Some (db w !! j) \/ j ∈ arrivals os.
Proof.
  revert w. induction os as [| [id r0 | extra e |] rest IH]; intros w H.
  - left. exact H.
  - cbn [event_loop] in H. apply IH in H as [H | H].
    + cbn [db] in H. apply client_insert_only in H as [H | ->].
      * left. exact H.
      * right. cbn. apply elem_of_cons. left. reflexivity.
    + right. cbn. apply elem_of_cons. right. exact H.
  - rewrite event_loop_notification in H. cbn [snd] in H.
    apply IH in H as [H | H]; [| right; exact H].
    left. by apply (call_keeps_rows e w (atoi extra) j).
  - rewrite event_loop_queue_empty in H. cbn [snd] in H. by apply IH.
Qed.

Lemma event_loop_counter (w : world) (os : list occurrence) :
  0 <= auth_failures w <= MAX_AUTH_FAILURES ->
  0 <= auth_failures (snd (event_loop w os)) <= MAX_AUTH_FAILURES.
Proof.
  revert w. induction os as [| [id r0 | extra e |] rest IH]; intros w H.
  - exact H.
  - cbn [event_loop]. apply IH. exact H.
  - rewrite event_loop_notification. cbn [snd]. apply IH.
    apply counter_bound. lia.
  - rewrite event_loop_queue_empty. cbn [snd]. by apply IH.
Qed.

(** X19. However long [main] stays in its event loop, whatever the
    notifications carry, whatever the environment answers and whatever
    rows other clients insert meanwhile: the failure counter is between 0
    and 5; every row that was in the table when the loop was entered is
    still there, with its address, subject and text, and has not moved
    back in the order received, processing, completed; every row that
    arrived is there; and the table holds no other row, that is the loop
    inserts none. *)
Theorem X19_main_invariants
    (environ : gmap string string) (server : string -> option table)
    (b : boot) (oracle : nat -> env) (tr : list event) (w : world)
    (os : list occurrence) :
  main_startup environ server b oracle = Serving tr w ->
  0 <= auth_failures (snd (event_loop w os)) <= 5 /\
  (forall j r,
     db w !! j = Some r ->
     exists r', db (snd (event_loop w os)) !! j = Some r' /\ carries_on r r') /\
  (forall j, j ∈ arrivals os -> is_Some (db (snd (event_loop w os)) !! j)) /\
  (forall j,
     is_Some (db (snd (event_loop w os)) !! j) ->
     is_Some (db w !! j) \/ j ∈ arrivals os).
Proof.
  intros Hm. destruct (main_startup_world _ _ _ _ tr w Hm) as (t & calls & ->).
  split; [| split; [| split]].
  - apply event_loop_counter. apply (run_counter_bound (launch t)). cbn.
    unfold auth_failures_init, MAX_AUTH_FAILURES. lia.
  - intros j r. apply event_loop_row.
  - intros j. apply event_loop_arrived.
  - intros j. apply event_loop_no_new.
Qed.

Lemma X19_main_invariants_witness :
  exists tr w,
    main_startup sample_environ sample_server sample_boot (fun _ => env_fine)
      = Serving tr w /\
    0 <= auth_failures (snd (event_loop w sample_occurrences)) <= 5 /\
    is_Some (db (snd (event_loop w sample_occurrences)) !! 77).
Proof.
  destruct (main_startup sample_environ sample_server sample_boot
              (fun _ => env_fine)) as [st tr | tr w |] eqn:Hm.
  - vm_compute in Hm. discriminate.
  - exists tr, w. split; [reflexivity |].
    destruct (X19_main_invariants sample_environ sample_server sample_boot
                (fun _ => env_fine) tr w sample_occurrences Hm)
      as (H1 & _ & H2 & _).
    split; [exact H1 |]. apply H2. cbn. apply elem_of_cons. left. reflexivity.
  - vm_compute in Hm. discriminate.
Defined.

(** ** More on [process_ticket] *)

(** X20. A ticket left in ['processing'] by a failed send is sent by the
    next call for it: if the first call reaches [send_email] and fails,
    and the second runs in a healthy environment, the ticket ends
    ['completed'] with [sent_at] set by the second call, after one failed
    and one successful send, and the failure counter is back at 0. *)
Theorem X20_retry_after_failed_send
    (e1 e2 : env) (w : world) (id : Z) (r : ticket) :
  db w !! id = Some r -> status r <> completed ->
  is_valid_email (email r) <> 0 ->
  claim_ok e1 = true -> fetch_ok e1 = true ->
  snd (send_email e1 (email r) (subject r) (body r)) = 0 ->
  healthy e2 = true ->
  status_of (db (snd (run w [(id, e1); (id, e2)]))) id = Some completed /\
  sent_at_of (db (snd (run w [(id, e1); (id, e2)]))) id = Some (Some (now e2)) /\
  count is_send_failed (fst (run w [(id, e1); (id, e2)])) = 1%nat /\
  count is_send_ok (fst (run w [(id, e1); (id, e2)])) = 1%nat /\
  auth_failures (snd (run w [(id, e1); (id, e2)])) = 0.
Proof.
  intros Hr Hs Hv Hc1 Hf1 Hfail He2.
  destruct (healthy_parts e2 He2) as (Hc2 & Hf2 & _ & Hco2 & Hse2).
  destruct (claimed_rows_live e1 w id r Hr Hs) as [Hl1 Hrow1].
  pose proof (path_send_failed e1 w id r Hc1 Hf1 Hrow1 Hv Hfail) as P1.
  set (w1 := World (claimed e1 w id) (gate_counter w + 1)) in P1.
  assert (status (with_status processing r) <> completed) as Hs1 by discriminate.
  destruct (claimed_rows_live e2 w1 id (with_status processing r) Hl1 Hs1)
    as [Hl2 Hrow2].
  pose proof (path_sent e2 w1 id (with_status processing r) Hc2 Hf2 Hrow2 Hv
                (Hse2 _ _ _)) as P2.
  rewrite !run_cons. cbn [run fst snd]. rewrite P1. cbn [fst snd]. rewrite P2.
  cbn [fst snd db auth_failures]. unfold status_of, sent_at_of.
  rewrite (completed_lookup (complete_ok e2) (now e2) id _ _ Hl2), Hco2.
  split; [reflexivity |]. split; [reflexivity |].
  pose proof (Hse2 (email r) (subject r) (body r)) as Hok.
  apply Z.eqb_neq in Hok.
  repeat split; rewrite app_nil_r; rewrite !count_app; count_trace;
    unfold count; cbn [List.filter is_send_failed is_send_ok email subject body
                       with_status length Z.eqb negb];
    rewrite ?Hok; reflexivity.
Qed.

Lemma X20_retry_after_failed_send_witness :
  status_of (db (snd (run sample_world [(42, env_send_fails); (42, env_fine)]))) 42
    = Some completed /\
  count is_send_ok (fst (run sample_world [(42, env_send_fails); (42, env_fine)]))
    = 1%nat.
Proof.
  destruct (X20_retry_after_failed_send env_send_fails env_fine sample_world 42
              ticket_42) as (H1 & _ & _ & H2 & _).
  - vm_compute. reflexivity.
  - discriminate.
  - vm_compute. discriminate.
  - reflexivity.
  - reflexivity.
  - reflexivity.
  - reflexivity.
  - split; [exact H1 | exact H2].
Defined.

(** X21. A ticket whose address is rejected is stamped again by every
    call for it in which the server executes the statements: after two
    calls in which the claim update, the select and the invalid-address
    update are executed, [sent_at] is the time of the second call, the
    status is ['processing'], and [send_email] was never called. *)
Theorem X21_rejected_ticket_restamped
    (e1 e2 : env) (w : world) (id : Z) (r : ticket) :
  db w !! id = Some r -> status r <> completed ->
  is_valid_email (email r) = 0 ->
  claim_ok e1 = true -> fetch_ok e1 = true -> reject_ok e1 = true ->
  claim_ok e2 = true -> fetch_ok e2 = true -> reject_ok e2 = true ->
  sent_at_of (db (snd (process_ticket e1 w id))) id = Some (Some (now e1)) /\
  sent_at_of (db (snd (run w [(id, e1); (id, e2)]))) id = Some (Some (now e2)) /\
  status_of (db (snd (run w [(id, e1); (id, e2)]))) id = Some processing /\
  count is_send (fst (run w [(id, e1); (id, e2)])) = 0%nat.
Proof.
  intros Hr Hs Hv Hc1 Hf1 Hro1 Hc2 Hf2 Hro2.
  destruct (claimed_rows_live e1 w id r Hr Hs) as [Hl1 Hrow1].
  pose proof (path_rejected e1 w id r Hc1 Hf1 Hrow1 Hv) as P1.
  pose proof (rejected_lookup (reject_ok e1) (now e1) id _ _ Hl1) as Hr1.
  rewrite Hro1 in Hr1, P1.
  set (r1 := with_sent_at (Some (now e1)) (with_status processing r)) in Hr1.
  set (w1 := World (snd (PQexec true (now e1) (UpdateRejected id)
                           (claimed e1 w id)))
                   (gate_counter w)) in P1.
  assert (status r1 <> completed) as Hs1 by discriminate.
  destruct (claimed_rows_live e2 w1 id r1 Hr1 Hs1) as [Hl2 Hrow2].
  pose proof (path_rejected e2 w1 id r1 Hc2 Hf2 Hrow2 Hv) as P2.
  rewrite !run_cons. cbn [run fst snd]. rewrite P1. cbn [fst snd]. rewrite P2.
  subst w1. cbn [fst snd db]. unfold status_of, sent_at_of.
  rewrite Hr1, (rejected_lookup (reject_ok e2) (now e2) id _ _ Hl2), Hro2.
  repeat split.
  rewrite app_nil_r, !count_app. count_trace. reflexivity.
Qed.

Lemma X21_rejected_ticket_restamped_witness :
  sent_at_of (db (snd (process_ticket env_fine sample_world 9))) 9
    = Some (Some 1000) /\
  sent_at_of (db (snd (run sample_world [(9, env_fine); (9, env_later)]))) 9
    = Some (Some 2000).
Proof.
  destruct (X21_rejected_ticket_restamped env_fine env_later
              sample_world 9 ticket_9) as (H1 & H2 & _).
  - vm_compute. reflexivity.
  - discriminate.
  - vm_compute. reflexivity.
  - reflexivity.
  - reflexivity.
  - reflexivity.
  - reflexivity.
  - reflexivity.
  - reflexivity.
  - split; [exact H1 | exact H2].
Defined.

(** X22. When the claim update is executed and the select that follows is
    refused, a ticket that was ['received'] is left in ['processing']
    with [sent_at] as it was: the call has not called [send_email], and
    the failure counter is what the backoff gate left. *)
Theorem X22_claimed_then_select_refused
    (e : env) (w : world) (id : Z) (r : ticket) :
  db w !! id = Some r -> status r = received ->
  claim_ok e = true -> fetch_ok e = false ->
  status_of (db (snd (process_ticket e w id))) id = Some processing /\
  sent_at_of (db (snd (process_ticket e w id))) id = Some (sent_at r) /\
  count is_send (fst (process_ticket e w id)) = 0%nat /\
  auth_failures (snd (process_ticket e w id)) = gate_counter w.
Proof.
  intros Hr Hs Hc Hf.
  assert (status r <> completed) as Hnc by congruence.
  destruct (claimed_rows_live e w id r Hr Hnc) as [Hl _].
  rewrite (path_fetch_error e w id Hc Hf). cbn [fst snd db auth_failures].
  unfold status_of, sent_at_of. rewrite Hl.
  repeat split. count_trace. reflexivity.
Qed.

Lemma X22_claimed_then_select_refused_witness :
  status_of
    (db (snd (process_ticket
                {| claim_ok := true; fetch_ok := false; reject_ok := true;
                   complete_ok := true;
                   now := 1000; curl_handle := true; perform_res := CURLE_OK |}
                sample_world 42))) 42 = Some processing.
Proof.
  apply (X22_claimed_then_select_refused _ sample_world 42 ticket_42).
  - vm_compute. reflexivity.
  - reflexivity.
  - reflexivity.
  - reflexivity.
Defined.
